(** * Stable Diffusion sample notebooks: the [optimize_pipeline] helper,
      the Canny conditioning image and the notebooks' call sequences.

    The repository is three Jupyter notebooks.  Its only function is
    [optimize_pipeline] (03_ControlNet_Generate.ipynb); everything else is a
    straight line of calls into external libraries.  The definitions come
    first:

    - pipeline objects, [nn.Module] objects and the state-and-exception
      monad in which [optimize_pipeline] is written (Part 1);
    - the array operations that build the conditioning image (Part 2);
    - the calls of every code cell, in source order, and what is read off
      them: files written, arguments of the inference call, phases
      (Part 3);

    then the properties (Parts 5 to 7). *)

From stdpp Require Import gmap strings list fin_maps.
From Stdlib Require Import ZArith Ascii.

Open Scope string_scope.
Open Scope list_scope.

(* ===================================================================== *)
(** * Part 1.  Python objects and [optimize_pipeline]                      *)
(* ===================================================================== *)

(** ** Exceptions

    [except AttributeError] catches every instance of [AttributeError]
    (subclasses included); [AttributeError] below stands for any such
    instance, [OtherError cls] for an exception of any other class. *)
Inductive exn :=
| AttributeError
| OtherError (cls : string).

(** ** Values and objects *)

Inductive Dtype := float32 | float16 | bfloat16.

(** Identities of objects on the Python heap: [loc] for [nn.Module]
    objects, [ref] for pipeline objects. *)
Abbreviation loc := nat.
Abbreviation ref := nat.

(** The part of an [nn.Module] object (with its whole tree of children) the
    helper and the libraries it calls can observe or change:
    - [training]: the flag [nn.Module.eval()] clears;
    - [dtype]: the [.dtype] attribute, which plain [nn.Module] lacks
      ([None]: reading it raises [AttributeError]);
    - [optimized_for]: what [ipex.optimize] has done to the module, if
      anything. *)
Record Module := mkModule {
  training : bool;
  dtype : option Dtype;
  optimized_for : option Dtype
}.

(** Any object that is not an [nn.Module] (a scheduler, a tokenizer, a bound
    method, [None], ...), with its [.dtype] attribute when it has one. *)
Record PyObj := mkPyObj {
  descr : string;
  obj_dtype : option Dtype
}.

Inductive Value :=
| VModule (l : loc)
| VOther (o : PyObj).

(** What [getattr(pipeline, name)] finds under a name: an attribute with a
    value, or a descriptor whose getter raises (a property reading a field
    that is not set yet raises [AttributeError]). *)
Inductive Slot :=
| Attr (v : Value)
| Raising (e : exn).

(** A pipeline object: the names [dir] lists and the attribute table.
    [dir] may list a name that cannot be read, and a name can be readable
    without being listed. *)
Record Pipeline := mkPipeline {
  dir_names : list string;
  slots : gmap string Slot
}.

(** The Python heap: pipeline objects and module objects. *)
Record State := mkState {
  pipes : gmap ref Pipeline;
  mods : gmap loc Module
}.

(** ** The monad of Python statements: state and exceptions *)

Definition M (A : Type) : Type := State → State * (exn + A).

Global Instance M_ret : MRet M := λ A a s, (s, inr a).

Global Instance M_bind : MBind M := λ A B k m s,
  match m s with
  | (s', inr a) => k a s'
  | (s', inl e) => (s', inl e)
  end.

Definition raise {A} (e : exn) : M A := λ s, (s, inl e).

(** [try: body / except AttributeError: pass] *)
Definition try_except_AttributeError (body : M unit) : M unit := λ s,
  match body s with
  | (s', inl AttributeError) => (s', inr tt)
  | r => r
  end.

(** [for x in l: body x] *)
Fixpoint for_each {A} (l : list A) (body : A → M unit) : M unit :=
  match l with
  | [] => mret tt
  | x :: rest => body x;; for_each rest body
  end.

(** ** Builtins and methods *)

Definition lookup_slot (s : State) (p : ref) (name : string) : option Slot :=
  pipes s !! p ≫= λ o, slots o !! name.

(** The names pipeline [p] lists in state [s]. *)
Definition listed (s : State) (p : ref) : list string :=
  match pipes s !! p with Some o => dir_names o | None => [] end.

(** [dir(pipeline)] *)
Definition dir (p : ref) : M (list string) := λ s, (s, inr (listed s p)).

(** [getattr(pipeline, name)] and [pipeline.name] *)
Definition getattr (p : ref) (name : string) : M Value := λ s,
  match lookup_slot s p name with
  | Some (Attr v) => (s, inr v)
  | Some (Raising e) => (s, inl e)
  | None => (s, inl AttributeError)
  end.

Definition set_slot (name : string) (v : Value) (o : Pipeline) : Pipeline :=
  mkPipeline (dir_names o) (<[name := Attr v]> (slots o)).

(** [setattr(pipeline, name, v)] *)
Definition setattr (p : ref) (name : string) (v : Value) : M unit := λ s,
  (mkState (alter (set_slot name v) p (pipes s)) (mods s), inr tt).

(** [isinstance(v, nn.Module)] *)
Definition isinstance_nn_Module (v : Value) : bool :=
  match v with VModule _ => true | VOther _ => false end.

Definition set_eval (m : Module) : Module :=
  mkModule false (dtype m) (optimized_for m).

(** [v.eval()]: [nn.Module.eval] clears the training flag in place and
    returns the module itself. *)
Definition Module_eval (v : Value) : M loc :=
  match v with
  | VModule l => λ s, (mkState (pipes s) (alter set_eval l (mods s)), inr l)
  | VOther _ => raise AttributeError
  end.

(** [v.dtype] *)
Definition get_dtype (v : Value) : M Dtype := λ s,
  match v with
  | VModule l =>
      match mods s !! l ≫= dtype with
      | Some d => (s, inr d)
      | None => (s, inl AttributeError)
      end
  | VOther o =>
      match obj_dtype o with
      | Some d => (s, inr d)
      | None => (s, inl AttributeError)
      end
  end.

Section OptimizePipeline.

(** [ipex.optimize(module, dtype=d, inplace=True)] is external: it is
    given a module and a dtype, may change any module object, and either
    returns a module or raises. *)
Variable ipex_optimize :
  loc → Dtype → gmap loc Module → gmap loc Module * (exn + loc).

Definition ipex_optimize_inplace (l : loc) (d : Dtype) : M loc := λ s,
  let '(h, r) := ipex_optimize l d (mods s) in (mkState (pipes s) h, r).

(** The body of the [try] block.  Arguments are evaluated left to right:
    [getattr(pipeline, attr).eval()] runs before
    [pipeline.text_encoder.dtype] is read. *)
Definition optimize_attr (pipeline : ref) (attr : string) : M unit :=
  v ← getattr pipeline attr;
  if isinstance_nn_Module v then
    m ← getattr pipeline attr;
    m' ← Module_eval m;
    text_encoder ← getattr pipeline "text_encoder";
    d ← get_dtype text_encoder;
    optimized ← ipex_optimize_inplace m' d;
    setattr pipeline attr (VModule optimized)
  else mret tt.

(** One iteration of the [for] loop. *)
Definition sweep_step (pipeline : ref) (attr : string) : M unit :=
  try_except_AttributeError (optimize_attr pipeline attr).

Definition sweep (pipeline : ref) (names : list string) : M unit :=
  for_each names (sweep_step pipeline).

Definition optimize_pipeline (pipeline : ref) : M ref :=
  names ← dir pipeline;
  sweep pipeline names;;
  mret pipeline.

End OptimizePipeline.

(* ===================================================================== *)
(** * Part 2.  The Canny conditioning image                               *)
(* ===================================================================== *)

(** Arrays of [uint8] as nested lists: [arr2] is height x width, [arr3] is
    height x width x channels. *)
Abbreviation arr2 := (list (list Z)).
Abbreviation arr3 := (list (list (list Z))).

(** [image[:, :, None]]: a new last axis of length one. *)
Definition new_last_axis (image : arr2) : arr3 :=
  map (map (λ v, [v])) image.

(** Combine two lists position by position; [None] when the lengths differ
    or one position fails (numpy raises [ValueError] on a shape mismatch). *)
Fixpoint zip_exact {A B C} (f : A → B → option C)
    (xs : list A) (ys : list B) : option (list C) :=
  match xs, ys with
  | [], [] => Some []
  | x :: xs', y :: ys' =>
      c ← f x y; cs ← zip_exact f xs' ys'; Some (c :: cs)
  | _, _ => None
  end.

(** Two arrays joined along axis 2: the channels of [b] after those of [a]
    at every pixel. *)
Definition concatenate2_axis2 (a b : arr3) : option arr3 :=
  zip_exact (zip_exact (λ pa pb, Some (pa ++ pb))) a b.

(** [np.concatenate(arrays, axis=2)] *)
Definition np_concatenate_axis2 (arrays : list arr3) : option arr3 :=
  match arrays with
  | [] => None
  | a :: rest => foldl (λ acc b, acc ≫= λ x, concatenate2_axis2 x b) (Some a) rest
  end.

(** A PIL image: mode and pixel data. *)
Record Image := mkImage {
  mode : string;
  pixels : arr3
}.

(** [Image.fromarray] on a height x width x 3 array of [uint8]. *)
Definition Image_fromarray (a : arr3) : Image := mkImage "RGB" a.

(** Lines 148-150 of the ControlNet notebook, from the output of
    [cv2.Canny]:
      image = image[:, :, None]
      image = np.concatenate([image, image, image], axis=2)
      canny_image = Image.fromarray(image) *)
Definition canny_image (edges : arr2) : option Image :=
  let image := new_last_axis edges in
  image ← np_concatenate_axis2 [image; image; image];
  Some (Image_fromarray image).

(** The pixel at row [i], column [j]. *)
Definition pixel (a : arr3) (i j : nat) : option (list Z) :=
  a !! i ≫= λ row, row !! j.

Definition edge_at (a : arr2) (i j : nat) : option Z :=
  a !! i ≫= λ row, row !! j.

(* ===================================================================== *)
(** * Part 3.  The notebooks as sequences of calls                        *)
(* ===================================================================== *)

(** Arguments as written in the source.  A name the script binds to a
    constant ([MODEL_ID], [MODEL_DIR]) is replaced by that constant. *)
Inductive Arg :=
| Str (s : string)
| Int (z : Z)
| Bool (b : bool)
| Expr (source : string).

Record Call := mkCall {
  callee : string;
  args : list Arg;
  kwargs : list (string * Arg)
}.

Inductive Notebook :=
| Simple_Pytorch_SD        (* 01_Simple_Pytorch_SD.ipynb *)
| OpenVINO_Text_to_Image   (* the OpenVINO text-to-image notebook *)
| ControlNet_Generate.     (* 03_ControlNet_Generate.ipynb *)

(** First code cell of the PyTorch and OpenVINO notebooks. *)
Definition path_setup_cell : list Call :=
  [ mkCall "import" [Str "os"] [];
    mkCall "import" [Str "sys"] [];
    mkCall "os.environ.get" [Str "USER"] [];
    mkCall "os.path.expanduser" [Expr "f'/home/{username}/.local/bin'"] [];
    mkCall "sys.path.append" [Expr "user_bin_path"] [];
    mkCall "print" [Expr "sys.path"] [] ].

Definition Simple_Pytorch_SD_cells : list Call :=
  path_setup_cell ++
  [ mkCall "pip install"
      [Str "--upgrade"; Str "diffusers"; Str "accelerate";
       Str "transformers"; Str "tqdm"] [];
    mkCall "import" [Str "torch"] [];
    mkCall "import" [Str "intel_extension_for_pytorch"] [];
    mkCall "ipex.xpu.get_device_name" [Int 0] [];
    mkCall "print" [Expr "ipex.xpu.get_device_name(0)"] [];
    mkCall "import" [Str "diffusers.StableDiffusionPipeline"] [];
    mkCall "StableDiffusionPipeline.from_pretrained"
      [Str "/home/common/data/Big_Data/GenAI/runwayml/stable-diffusion-v1-5"]
      [("revision", Str "fp16"); ("torch_dtype", Expr "torch.float16")];
    mkCall "pipe.to" [Str "xpu"] [];
    mkCall "pipe" [Str "A cat riding a surfboard on a big wave"] [];
    mkCall "display" [Expr "image"] [] ].

(** The OpenVINO notebook branches once, on whether the directory
    [diffusion_pipeline] exists. *)
Definition OpenVINO_load_cell (model_dir_exists : bool) : list Call :=
  [ mkCall "import" [Str "optimum.intel.openvino.OVStableDiffusionPipeline"] [];
    mkCall "import" [Str "pathlib.Path"] [];
    mkCall "Path" [Str "diffusion_pipeline"] [];
    mkCall "MODEL_DIR.exists" [] [] ] ++
  (if model_dir_exists then
     [ mkCall "OVStableDiffusionPipeline.from_pretrained"
         [Str "diffusion_pipeline"]
         [("device", Expr "DEVICE"); ("compile", Bool false)] ]
   else
     [ mkCall "OVStableDiffusionPipeline.from_pretrained"
         [Str "prompthero/openjourney"]
         [("export", Bool true); ("device", Expr "DEVICE");
          ("compile", Bool false)];
       mkCall "ov_pipe.save_pretrained" [Str "diffusion_pipeline"] [] ]) ++
  [ mkCall "ov_pipe.compile" [] [] ].

Definition OpenVINO_Text_to_Image_cells (model_dir_exists : bool) : list Call :=
  path_setup_cell ++
  [ mkCall "pip install"
      [Str "-q"; Str "openvino>=2023.1.0";
       Str "git+https://github.com/huggingface/optimum-intel.git"] [];
    mkCall "pip install"
      [Str "-q"; Str "--extra-index-url";
       Str "https://download.pytorch.org/whl/cpu";
       Str "diffusers>=0.9.0"; Str "torch>=2.1"] [];
    mkCall "pip install" [Str "-q"; Str "huggingface-hub>=0.9.1"] [];
    mkCall "pip install"
      [Str "-q"; Str "transformers"; Str "Pillow"; Str "opencv-python";
       Str "tqdm"; Str "ipywidgets"] [];
    mkCall "import" [Str "requests"] [];
    mkCall "requests.get" []
      [("url", Str "https://raw.githubusercontent.com/openvinotoolkit/openvino_notebooks/latest/utils/notebook_utils.py")];
    mkCall "open" [Str "notebook_utils.py"; Str "w"] [];
    mkCall "write" [Expr "r.text"] [];
    mkCall "import" [Str "notebook_utils"] [];
    mkCall "device_widget" [] [] ] ++
  OpenVINO_load_cell model_dir_exists ++
  [ mkCall "import" [Str "ipywidgets"] [];
    mkCall "widgets.Text" []
      [("value", Expr "sample_text"); ("description", Str "your text")];
    mkCall "widgets.IntSlider" []
      [("min", Int 1); ("max", Int 50); ("value", Int 20);
       ("description", Str "steps:")];
    mkCall "widgets.IntSlider" []
      [("min", Int 0); ("max", Int 10000000); ("description", Str "seed: ");
       ("value", Int 42)];
    mkCall "widgets.VBox" [Expr "[text_prompt, num_steps, seed]"] [];
    mkCall "print" [Str "Pipeline settings"] [];
    mkCall "print" [Expr "f'Input text: {text_prompt.value}'"] [];
    mkCall "print" [Expr "f'Seed: {seed.value}'"] [];
    mkCall "print" [Expr "f'Number of steps: {num_steps.value}'"] [];
    mkCall "import" [Str "numpy"] [];
    mkCall "np.random.seed" [Expr "seed.value"] [];
    mkCall "ov_pipe" [Expr "text_prompt.value"]
      [("num_inference_steps", Expr "num_steps.value")];
    mkCall "final_image.save" [Str "result.png"] [];
    mkCall "text_prompt.value.split" [Str "."] [];
    mkCall "join" [Expr "text_prompt.value.split('.')"] [];
    mkCall "print" [Str "Input text:"] [];
    mkCall "print" [Expr "'\t' + text"] [];
    mkCall "display" [Expr "final_image"] [] ].

Definition ControlNet_Generate_cells : list Call :=
  [ mkCall "import" [Str "torch"] [];
    mkCall "import" [Str "torch.nn"] [];
    mkCall "import" [Str "intel_extension_for_pytorch"] [];
    mkCall "import" [Str "diffusers.utils"] [];
    mkCall "import" [Str "PIL.Image"] [];
    mkCall "import" [Str "cv2"] [];
    mkCall "import" [Str "numpy"] [];
    mkCall "import" [Str "diffusers"] [];
    mkCall "load_image"
      [Str "https://img.freepik.com/premium-photo/house-outline-illustration-white-background_1112329-31710.jpg"] [];
    mkCall "resize" [Expr "(1024, 1024)"] [];
    mkCall "np.array" [Expr "original_image"] [];
    mkCall "cv2.Canny" [Expr "image"; Int 100; Int 200] [];
    mkCall "np.concatenate" [Expr "[image, image, image]"] [("axis", Int 2)];
    mkCall "Image.fromarray" [Expr "image"] [];
    mkCall "np.array" [Expr "canny_image"] [];
    mkCall "torch.tensor" [Expr "np.array(canny_image)"] [];
    mkCall "Tensor.to" [Str "xpu"] [];
    mkCall "ControlNetModel.from_pretrained"
      [Str "lllyasviel/sd-controlnet-canny"]
      [("torch_dtype", Expr "torch.bfloat16"); ("use_safetensors", Bool true)];
    mkCall "StableDiffusionControlNetPipeline.from_pretrained"
      [Str "runwayml/stable-diffusion-v1-5"]
      [("controlnet", Expr "controlnet");
       ("torch_dtype", Expr "torch.bfloat16"); ("use_safetensors", Bool true)];
    mkCall "UniPCMultistepScheduler.from_config"
      [Expr "pipe.scheduler.config"] [];
    mkCall "pipe.to" [Str "xpu"] [];
    mkCall "optimize_pipeline" [Expr "pipe"] [];
    mkCall "torch.inference_mode" [] [];
    mkCall "torch.xpu.amp.autocast" []
      [("enabled", Bool true); ("dtype", Expr "torch.bfloat16")];
    mkCall "pipe" [Str "Vivid Watercolor"] [("image", Expr "canny_image")];
    mkCall "make_image_grid" [Expr "[original_image, canny_image, output]"]
      [("rows", Int 1); ("cols", Int 3)];
    mkCall "np.array" [Expr "image_grid"] [];
    mkCall "cv2.imwrite" [Str "house.png"; Expr "image_grid_np"] [] ].

(** The calls of one run of a notebook, every cell executed once from top
    to bottom. *)
Definition script (nb : Notebook) (model_dir_exists : bool) : list Call :=
  match nb with
  | Simple_Pytorch_SD => Simple_Pytorch_SD_cells
  | OpenVINO_Text_to_Image => OpenVINO_Text_to_Image_cells model_dir_exists
  | ControlNet_Generate => ControlNet_Generate_cells
  end.

(** ** Running a notebook

    No cell has a [try] block around its calls: the first call that raises
    ends the run with that exception.  [raises k] is the exception the
    [k]-th call of the run raises, if it raises one. *)
Inductive Outcome :=
| Finished
| Raised (e : exn).

Fixpoint run_from (k : nat) (raises : nat → option exn) (cells : list Call)
    : list Call * Outcome :=
  match cells with
  | [] => ([], Finished)
  | c :: rest =>
      match raises k with
      | Some e => ([c], Raised e)
      | None =>
          let '(executed, o) := run_from (S k) raises rest in
          (c :: executed, o)
      end
  end.

Definition run (raises : nat → option exn) (cells : list Call)
    : list Call * Outcome :=
  run_from 0 raises cells.

(** ** Files written *)

Definition ends_with (suffix s : string) : bool :=
  String.eqb
    (String.substring (String.length s - String.length suffix)
                      (String.length suffix) s)
    suffix
  && (String.length suffix <=? String.length s)%nat.

Definition is_png (file : string) : bool := ends_with ".png" file.

(** The file a call of the notebook's own code creates in the working
    directory: [open(f, "w")], [final_image.save(f)], [cv2.imwrite(f, _)]. *)
Definition written_file (c : Call) : option string :=
  if bool_decide (callee c = "open") then
    match args c with
    | [Str f; Str m] => if bool_decide (m = "w") then Some f else None
    | _ => None
    end
  else if bool_decide (callee c ∈ ["final_image.save"; "cv2.imwrite"]) then
    match args c with
    | Str f :: _ => Some f
    | _ => None
    end
  else None.

Definition files_written (cells : list Call) : list string :=
  omap written_file cells.

(** The directory [save_pretrained] fills with the exported model. *)
Definition saved_model_dir (c : Call) : option string :=
  if bool_decide (callee c = "ov_pipe.save_pretrained") then
    match args c with
    | [Str d] => Some d
    | _ => None
    end
  else None.

(** "The only file written is a single PNG image file." *)
Definition writes_only_one_png (cells : list Call) : Prop :=
  ∃ f, files_written cells = [f] ∧ is_png f = true.

(** ** The inference call *)

(** A call of the pipeline object itself. *)
Definition is_inference (c : Call) : bool :=
  bool_decide (callee c ∈ ["pipe"; "ov_pipe"]).

Definition inference_calls (cells : list Call) : list Call :=
  filter (λ c, is_inference c = true) cells.

Definition has_kwarg (k : string) (c : Call) : bool :=
  bool_decide (k ∈ (kwargs c).*1).

(** The first positional argument is the prompt: a string literal or the
    value of the text widget. *)
Definition passes_prompt (c : Call) : bool :=
  match args c with
  | Str _ :: _ => true
  | Expr e :: _ => bool_decide (e = "text_prompt.value")
  | _ => false
  end.

(** Arguments besides the prompt. *)
Definition extra_arguments (c : Call) : nat :=
  (length (args c) - 1 + length (kwargs c))%nat.

(** "A prompt together with step count, guidance scale and random seed":
    the prompt and at least three further arguments, among them the step
    count and the guidance scale under the names the pipelines give them. *)
Definition passes_prompt_steps_guidance_seed (c : Call) : bool :=
  passes_prompt c
  && (3 <=? extra_arguments c)%nat
  && has_kwarg "num_inference_steps" c
  && has_kwarg "guidance_scale" c.

(** ** Phases of a run *)

Inductive Phase :=
| EnvSetup
| DependencyInstall
| ModelLoad
| DeviceTransfer
| Inference
| Output.

Global Instance Phase_eq_dec : EqDecision Phase.
Proof. solve_decision. Defined.










(* ===================================================================== *)
(** * Part 4.  Relations and sample heaps used by the statements          *)
(* ===================================================================== *)

(** The slot holds an [nn.Module]. *)
Definition module_slot (o : option Slot) : Prop :=
  ∃ l, o = Some (Attr (VModule l)).

(** What a run over the names [names] of pipeline [p] may change in the
    pipeline objects: nothing but the bindings of [p]'s attributes among
    [names] that held a module, and these hold a module afterwards. *)
Record frame (p : ref) (names : list string) (s s' : State) : Prop := mkFrame {
  frame_dom : dom (pipes s') = dom (pipes s);
  frame_others : ∀ q, q ≠ p → pipes s' !! q = pipes s !! q;
  frame_dir : dir_names <$> pipes s' !! p = dir_names <$> pipes s !! p;
  frame_slots : ∀ a,
    lookup_slot s' p a = lookup_slot s p a
    ∨ (a ∈ names
       ∧ module_slot (lookup_slot s p a)
       ∧ module_slot (lookup_slot s' p a))
}.

(** The module heap after [.eval()] has been called on the module bound to
    each of [names] in the pipeline [p] of state [s]. *)
Definition eval_modules (s : State) (p : ref) (names : list string)
    (h : gmap loc Module) : gmap loc Module :=
  foldl (λ h a,
           match lookup_slot s p a with
           | Some (Attr (VModule l)) => alter set_eval l h
           | _ => h
           end) h names.

(** The state after [.eval()] on the module [l]. *)
Definition after_eval (s : State) (l : loc) : State :=
  mkState (pipes s) (alter set_eval l (mods s)).

(** An [ipex.optimize] that converts the module in place to the requested
    dtype and returns it. *)
Definition ipex_marking (l : loc) (d : Dtype) (h : gmap loc Module)
    : gmap loc Module * (exn + loc) :=
  (alter (λ m, mkModule (training m) (Some d) (Some d)) l h, inr l).

(** An [ipex.optimize] that raises [e] and changes nothing. *)
Definition ipex_raising (e : exn) (l : loc) (d : Dtype) (h : gmap loc Module)
    : gmap loc Module * (exn + loc) :=
  (h, inl e).

(** A ControlNet pipeline after [from_pretrained]: four modules, a
    scheduler and a property that cannot be read before the first call. *)
Definition controlnet_pipeline : Pipeline :=
  mkPipeline
    ["controlnet"; "guidance_scale"; "scheduler"; "text_encoder"; "unet"; "vae"]
    (list_to_map
       [("controlnet", Attr (VModule 1));
        ("guidance_scale", Raising AttributeError);
        ("scheduler", Attr (VOther (mkPyObj "UniPCMultistepScheduler" None)));
        ("text_encoder", Attr (VModule 2));
        ("unet", Attr (VModule 3));
        ("vae", Attr (VModule 4))]).

Definition loaded : State :=
  mkState {[ 0%nat := controlnet_pipeline ]}
    (list_to_map
       [(1%nat, mkModule false (Some bfloat16) None);
        (2%nat, mkModule false (Some bfloat16) None);
        (3%nat, mkModule true (Some bfloat16) None);
        (4%nat, mkModule false (Some bfloat16) None)]).

(** An [ipex.optimize] that refuses a module in training mode and
    otherwise converts in place. *)
Definition ipex_refusing_training (l : loc) (d : Dtype) (h : gmap loc Module)
    : gmap loc Module * (exn + loc) :=
  match training <$> h !! l with
  | Some true => (h, inl (OtherError "RuntimeError"))
  | _ => ipex_marking l d h
  end.

(** The loaded pipeline next to a module it does not hold. *)
Definition loaded_with_spare : State :=
  mkState (pipes loaded)
    (<[5%nat := mkModule true (Some float32) None]> (mods loaded)).

(** An object that lists a scheduler and an unreadable property, and holds
    no module. *)
Definition no_modules : State :=
  mkState
    {[ 0%nat :=
         mkPipeline ["guidance_scale"; "scheduler"]
           (list_to_map
              [("guidance_scale", Raising AttributeError);
               ("scheduler", Attr (VOther (mkPyObj "DDIMScheduler" None)))]) ]}
    {[ 1%nat := mkModule true (Some float32) None ]}.

(** A pipeline with a denoiser in training mode and no [text_encoder]. *)
Definition pipeline_without_text_encoder : Pipeline :=
  mkPipeline ["scheduler"; "unet"]
    (list_to_map
       [("scheduler", Attr (VOther (mkPyObj "DDIMScheduler" None)));
        ("unet", Attr (VModule 1))]).

Definition no_text_encoder : State :=
  mkState {[ 0%nat := pipeline_without_text_encoder ]}
    {[ 1%nat := mkModule true (Some float32) None ]}.

(** ** Further cells of the notebooks *)

(** *** The path set-up cell (first code cell of the PyTorch and OpenVINO
    notebooks)

      username = os.environ.get('USER')
      user_bin_path = os.path.expanduser(f"/home/{username}/.local/bin")
      sys.path.append(user_bin_path) *)
Section PathSetup.

(** What [os.path.expanduser] makes of a path that starts with a tilde; it
    depends on [HOME] and the password database. *)
Variable expand_tilde : string → string.

(** [os.path.expanduser]: a path that does not start with a tilde is
    returned as it is. *)
Definition os_path_expanduser (path : string) : string :=
  match path with
  | String c _ => if Ascii.eqb c "~"%char then expand_tilde path else path
  | EmptyString => path
  end.

(** [{username}] in the f-string: [os.environ.get] gives [None] for a
    variable that is not set, and [None] is formatted as the text None. *)
Definition format_username (username : option string) : string :=
  default "None" username.

Definition user_bin_path (environ : gmap string string) : string :=
  let username := environ !! "USER" in
  os_path_expanduser ("/home/" +:+ format_username username +:+ "/.local/bin").

(** The effect of the cell on [sys.path]. *)
Definition path_setup (environ : gmap string string) (sys_path : list string)
    : list string :=
  sys_path ++ [user_bin_path environ].

End PathSetup.

(** *** The display cell of the OpenVINO notebook

      text = "\n\t".join(text_prompt.value.split(".")) *)

(** [s.split(sep)] for a separator of one character: the pieces between
    the occurrences of [sep], empty pieces included; never an empty list. *)
Fixpoint str_split (sep : ascii) (s : string) : list string :=
  match s with
  | EmptyString => [EmptyString]
  | String c rest =>
      if Ascii.eqb c sep then EmptyString :: str_split sep rest
      else match str_split sep rest with
           | piece :: pieces => String c piece :: pieces
           | [] => [String c EmptyString]
           end
  end.

(** A newline followed by a tab. *)
Definition newline_tab : string :=
  String (ascii_of_nat 10) (String (ascii_of_nat 9) EmptyString).

(** [sep.join(pieces)] is [String.concat sep pieces]. *)
Definition display_text (prompt : string) : string :=
  String.concat newline_tab (str_split "."%char prompt).

Fixpoint count_char (c : ascii) (s : string) : nat :=
  match s with
  | EmptyString => 0
  | String c' rest => (if Ascii.eqb c' c then 1 else 0) + count_char c rest
  end.

(** [s.replace(c, by)] for a character [c]. *)
Fixpoint replace_char (c : ascii) (by_ : string) (s : string) : string :=
  match s with
  | EmptyString => EmptyString
  | String c' rest =>
      if Ascii.eqb c' c then by_ +:+ replace_char c by_ rest
      else String c' (replace_char c by_ rest)
  end.

(** *** Runs in a working directory *)

(** The script a notebook runs in a working directory that holds the
    entries [fs]: the OpenVINO notebook tests [MODEL_DIR.exists()]. *)
Definition run_in (fs : gset string) (nb : Notebook) : list Call :=
  script nb (bool_decide ("diffusion_pipeline" ∈ fs)).

(** The entries of the working directory after the calls [cells] have
    completed. *)
Definition fs_after (fs : gset string) (cells : list Call) : gset string :=
  fs ∪ list_to_set (files_written cells)
     ∪ list_to_set (omap saved_model_dir cells).

(** The calls of a run that returned: all executed calls, but for the one
    that raised. *)
Definition completed (raises : nat → option exn) (cells : list Call)
    : list Call :=
  match run raises cells with
  | (executed, Finished) => executed
  | (executed, Raised _) => removelast executed
  end.

Definition writes_png (c : Call) : bool :=
  match written_file c with
  | Some f => is_png f
  | None => false
  end.

(** *** Reading a channel back from an image array *)

(** [a[:, :, k]] *)
Definition channel (k : nat) (a : arr3) : option arr2 :=
  mapM (mapM (λ px : list Z, px !! k)) a.

(* ===================================================================== *)
(** * Part 5.  Properties of [optimize_pipeline]                          *)
(* ===================================================================== *)

Ltac unfold_monad :=
  unfold mbind, M_bind, mret, M_ret, raise in *.

Lemma getattr_state p a s : (getattr p a s).1 = s.
Proof. unfold getattr. by destruct (lookup_slot s p a) as [[?|?]|]. Qed.

Lemma getattr_inv p a s s' r : getattr p a s = (s', r) → s' = s.
Proof. intros H. by rewrite <- (getattr_state p a s), H. Qed.

(** [getattr] reads the pipeline objects only. *)
Lemma getattr_same_slot p a s s' :
  lookup_slot s' p a = lookup_slot s p a →
  (getattr p a s').2 = (getattr p a s).2.
Proof.
  intros H. unfold getattr. rewrite H.
  by destruct (lookup_slot s p a) as [[?|?]|].
Qed.

Lemma getattr_module_slot p a s l :
  getattr p a s = (s, inr (VModule l)) ↔
  lookup_slot s p a = Some (Attr (VModule l)).
Proof.
  unfold getattr. destruct (lookup_slot s p a) as [[v|e]|]; split; intros H;
    by simplify_eq.
Qed.

Lemma lookup_slot_set P h p a v q b :
  lookup_slot (mkState (alter (set_slot a v) p P) h) q b =
  if decide (q = p ∧ b = a)
  then (λ _, Attr v) <$> P !! p
  else lookup_slot (mkState P h) q b.
Proof.
  unfold lookup_slot; simpl. case_decide as Hd.
  - destruct Hd as [-> ->]. rewrite lookup_alter_eq.
    destruct (P !! p) as [o|]; simpl; [|done].
    by rewrite lookup_insert_eq.
  - destruct (decide (q = p)) as [->|Hq].
    + rewrite lookup_alter_eq. destruct (P !! p) as [o|]; simpl; [|done].
      rewrite lookup_insert_ne; [done|]. intros ->. by apply Hd.
    + by rewrite lookup_alter_ne.
Qed.

Lemma frame_same_pipes p names s s' : pipes s' = pipes s → frame p names s s'.
Proof.
  intros H. split; intros; unfold lookup_slot; rewrite ?H; auto.
Qed.

Lemma frame_refl p names s : frame p names s s.
Proof. by apply frame_same_pipes. Qed.

Lemma frame_trans p n1 n2 s1 s2 s3 :
  frame p n1 s1 s2 → frame p n2 s2 s3 → frame p (n1 ++ n2) s1 s3.
Proof.
  intros [D1 O1 N1 S1] [D2 O2 N2 S2]. split.
  - congruence.
  - intros q Hq. rewrite O2; auto.
  - congruence.
  - intros a. destruct (S2 a) as [E2|(I2 & M2 & M3)], (S1 a) as [E1|(I1 & M1 & M2')].
    + left. by rewrite E2.
    + right. rewrite E2. split; [apply elem_of_app; by left|done].
    + right. rewrite <- E1. split; [apply elem_of_app; by right|done].
    + right. split; [apply elem_of_app; by left|done].
Qed.

Lemma frame_weaken p n1 n2 s s' :
  (∀ a, a ∈ n1 → a ∈ n2) → frame p n1 s s' → frame p n2 s s'.
Proof.
  intros Hsub [D O N S]. split; [exact D|exact O|exact N|].
  intros a. destruct (S a) as [?|(? & ? & ?)]; [by left|right]. auto.
Qed.

Lemma frame_set p a s l l' h :
  lookup_slot s p a = Some (Attr (VModule l)) →
  frame p [a] s (mkState (alter (set_slot a (VModule l')) p (pipes s)) h).
Proof.
  intros Hl.
  assert (is_Some (pipes s !! p)) as [o Ho].
  { unfold lookup_slot in Hl. destruct (pipes s !! p); [by eexists|done]. }
  split; simpl.
  - apply set_eq. intros q. rewrite !elem_of_dom.
    destruct (decide (q = p)) as [->|Hq].
    + rewrite lookup_alter_eq, Ho. simpl. split; intros _; by eexists.
    + by rewrite lookup_alter_ne.
  - intros q Hq. by rewrite lookup_alter_ne.
  - by rewrite lookup_alter_eq, Ho.
  - intros b. rewrite lookup_slot_set. case_decide as Hd.
    + destruct Hd as [_ ->]. right. rewrite Ho. simpl.
      split; [by left|]. split; by eexists.
    + by left.
Qed.

Section OptimizePipelineFacts.

Variable ipex_optimize :
  loc → Dtype → gmap loc Module → gmap loc Module * (exn + loc).


(** *** One attribute *)

Lemma optimize_attr_unreadable p a s e :
  getattr p a s = (s, inl e) → optimize_attr ipex_optimize p a s = (s, inl e).
Proof. intros H. unfold optimize_attr. unfold_monad. by rewrite H. Qed.

Lemma optimize_attr_not_module p a s o :
  getattr p a s = (s, inr (VOther o)) → optimize_attr ipex_optimize p a s = (s, inr tt).
Proof. intros H. unfold optimize_attr. unfold_monad. by rewrite H. Qed.

Lemma optimize_attr_module p a s l :
  getattr p a s = (s, inr (VModule l)) →
  optimize_attr ipex_optimize p a s =
    (text_encoder ← getattr p "text_encoder";
     d ← get_dtype text_encoder;
     optimized ← ipex_optimize_inplace ipex_optimize l d;
     setattr p a (VModule optimized)) (after_eval s l).
Proof.
  intros H. unfold optimize_attr. unfold_monad.
  rewrite H. simpl. by rewrite H.
Qed.

(** The four ways the processing of a module attribute can end. *)
Lemma optimize_attr_module_cases p a s l :
  getattr p a s = (s, inr (VModule l)) →
  let s1 := after_eval s l in
  (∃ e, (getattr p "text_encoder" s1).2 = inl e
        ∧ optimize_attr ipex_optimize p a s = (s1, inl e))
  ∨ (∃ te e, getattr p "text_encoder" s1 = (s1, inr te)
        ∧ get_dtype te s1 = (s1, inl e)
        ∧ optimize_attr ipex_optimize p a s = (s1, inl e))
  ∨ (∃ te d h e, getattr p "text_encoder" s1 = (s1, inr te)
        ∧ get_dtype te s1 = (s1, inr d)
        ∧ ipex_optimize l d (mods s1) = (h, inl e)
        ∧ optimize_attr ipex_optimize p a s = (mkState (pipes s) h, inl e))
  ∨ (∃ te d h l', getattr p "text_encoder" s1 = (s1, inr te)
        ∧ get_dtype te s1 = (s1, inr d)
        ∧ ipex_optimize l d (mods s1) = (h, inr l')
        ∧ optimize_attr ipex_optimize p a s =
            (mkState (alter (set_slot a (VModule l')) p (pipes s)) h, inr tt)).
Proof.
  intros H s1. rewrite (optimize_attr_module _ _ _ _ H). fold s1.
  unfold_monad.
  destruct (getattr p "text_encoder" s1) as [s2 [e|te]] eqn:Hte.
  { left. exists e. by rewrite (getattr_inv _ _ _ _ _ Hte). }
  pose proof (getattr_inv _ _ _ _ _ Hte) as ->.
  right.
  assert (∃ r, get_dtype te s1 = (s1, r)) as [[e|d] Hd].
  { unfold get_dtype. destruct te as [l0|o].
    - destruct (mods s1 !! l0 ≫= dtype); by eexists.
    - destruct (obj_dtype o); by eexists. }
  { left. exists te, e. by rewrite Hd. }
  right. rewrite Hd. unfold ipex_optimize_inplace.
  destruct (ipex_optimize l d (mods s1)) as [h [e|l']] eqn:Hi.
  - left. by exists te, d, h, e.
  - right. by exists te, d, h, l'.
Qed.

Lemma getattr_cases p a s :
  (∃ e, getattr p a s = (s, inl e))
  ∨ (∃ o, getattr p a s = (s, inr (VOther o)))
  ∨ (∃ l, getattr p a s = (s, inr (VModule l))).
Proof.
  unfold getattr. destruct (lookup_slot s p a) as [[[l|o]|e]|]; eauto.
Qed.

Lemma optimize_attr_frame p a s : frame p [a] s (optimize_attr ipex_optimize p a s).1.
Proof.
  destruct (getattr_cases p a s) as [[e H]|[[o H]|[l H]]].
  - rewrite (optimize_attr_unreadable _ _ _ _ H). apply frame_refl.
  - rewrite (optimize_attr_not_module _ _ _ _ H). apply frame_refl.
  - destruct (optimize_attr_module_cases _ _ _ _ H)
      as [(e & _ & ->)|[(te & e & _ & _ & ->)|[(te & d & h & e & _ & _ & _ & ->)
         |(te & d & h & l' & _ & _ & _ & ->)]]]; simpl;
      try (by apply frame_same_pipes).
    apply frame_set with l. by apply getattr_module_slot.
Qed.

(** *** One iteration and the loop *)

Lemma sweep_step_eq p a s :
  sweep_step ipex_optimize p a s =
  ((optimize_attr ipex_optimize p a s).1,
   match (optimize_attr ipex_optimize p a s).2 with
   | inl AttributeError => inr tt
   | r => r
   end).
Proof.
  unfold sweep_step, try_except_AttributeError.
  by destruct (optimize_attr ipex_optimize p a s) as [s' [[|cls]|[]]].
Qed.

Lemma sweep_cons p a rest s :
  sweep ipex_optimize p (a :: rest) s =
  match sweep_step ipex_optimize p a s with
  | (s1, inr _) => sweep ipex_optimize p rest s1
  | (s1, inl e) => (s1, inl e)
  end.
Proof. done. Qed.

Lemma sweep_app p pre post s :
  sweep ipex_optimize p (pre ++ post) s =
  match sweep ipex_optimize p pre s with
  | (s1, inr _) => sweep ipex_optimize p post s1
  | (s1, inl e) => (s1, inl e)
  end.
Proof.
  revert s. induction pre as [|a pre IH]; intros s; [done|].
  rewrite <- app_comm_cons, !sweep_cons.
  destruct (sweep_step ipex_optimize p a s) as [s1 [e|[]]]; [done|]. apply IH.
Qed.

Lemma sweep_frame p names s : frame p names s (sweep ipex_optimize p names s).1.
Proof.
  revert s. induction names as [|a rest IH]; intros s; [apply frame_refl|].
  rewrite sweep_cons.
  pose proof (optimize_attr_frame p a s) as Hf.
  rewrite sweep_step_eq.
  destruct (optimize_attr ipex_optimize p a s) as [s1 [[|cls]|[]]]; simpl in *.
  - apply (frame_trans p [a] rest s s1); [done|apply IH].
  - eapply frame_weaken; [|done]. intros b Hb. apply elem_of_cons.
  left. by apply list_elem_of_singleton in Hb.
  - apply (frame_trans p [a] rest s s1); [done|apply IH].
Qed.

(** The loop lets no [AttributeError] out. *)
Lemma sweep_outcome p names s :
  (sweep ipex_optimize p names s).2 = inr tt ∨ ∃ cls, (sweep ipex_optimize p names s).2 = inl (OtherError cls).
Proof.
  revert s. induction names as [|a rest IH]; intros s; [by left|].
  rewrite sweep_cons, sweep_step_eq.
  destruct (optimize_attr ipex_optimize p a s) as [s1 [[|cls]|[]]]; simpl; eauto.
Qed.

Lemma optimize_pipeline_eq p s :
  optimize_pipeline ipex_optimize p s =
  match sweep ipex_optimize p (listed s p) s with
  | (s1, inr _) => (s1, inr p)
  | (s1, inl e) => (s1, inl e)
  end.
Proof.
  unfold optimize_pipeline, dir, listed. unfold_monad.
  by destruct (sweep ipex_optimize p _ s) as [s1 [e|[]]].
Qed.

End OptimizePipelineFacts.

(** *** Frame: the same object, and only module attributes rebound *)

(** C8.  [optimize_pipeline] hands back the pipeline object it was given:
    whenever it returns, the returned reference is the argument (the only
    other outcome is an exception that is not an [AttributeError]); no
    pipeline object is created or removed, no other pipeline object is
    touched, the names the pipeline lists are the same, and every attribute
    of the pipeline whose value is not an [nn.Module] reads after the call
    exactly as before it (the same value, or the same exception). *)
Theorem optimize_pipeline_same_object_other_attributes_kept
    (ipex : loc → Dtype → gmap loc Module → gmap loc Module * (exn + loc))
    (p : ref) (s : State) :
  let out := optimize_pipeline ipex p s in
  (out.2 = inr p ∨ ∃ cls, out.2 = inl (OtherError cls))
  ∧ dom (pipes out.1) = dom (pipes s)
  ∧ (∀ q, q ≠ p → pipes out.1 !! q = pipes s !! q)
  ∧ listed out.1 p = listed s p
  ∧ (∀ a, (∀ l, getattr p a s ≠ (s, inr (VModule l))) →
          (getattr p a out.1).2 = (getattr p a s).2).
Proof.
  intros out. subst out. rewrite optimize_pipeline_eq.
  pose proof (sweep_frame ipex p (listed s p) s) as [D O N S].
  pose proof (sweep_outcome ipex p (listed s p) s) as Hout.
  assert (∀ s1, dir_names <$> pipes s1 !! p = dir_names <$> pipes s !! p →
                listed s1 p = listed s p) as Hlisted.
  { intros s1 E. unfold listed.
    destruct (pipes s1 !! p), (pipes s !! p); simpl in E; congruence. }
  assert (∀ s1,
            (∀ a, lookup_slot s1 p a = lookup_slot s p a
                  ∨ a ∈ listed s p ∧ module_slot (lookup_slot s p a)
                    ∧ module_slot (lookup_slot s1 p a)) →
            ∀ a, (∀ l, getattr p a s ≠ (s, inr (VModule l))) →
                 (getattr p a s1).2 = (getattr p a s).2) as Hkept.
  { intros s1 S1 a Hnot. apply getattr_same_slot.
    destruct (S1 a) as [E|(_ & [l Hl] & _)]; [exact E|].
    exfalso. by apply (Hnot l), getattr_module_slot. }
  destruct (sweep ipex p (listed s p) s) as [s1 [e|[]]]; simpl in *.
  - split; [|by auto].
    right. destruct Hout as [Hout|[cls Hout]]; [discriminate Hout|].
    injection Hout as ->. by exists cls.
  - split; [by left|by auto].
Qed.

(** *** Skipping on [AttributeError] *)


(** *** A pipeline without [text_encoder] *)

Lemma set_eval_idemp (o : option Module) :
  set_eval <$> (set_eval <$> o) = set_eval <$> o.
Proof. by destruct o. Qed.

Lemma eval_modules_cons s p a rest h :
  eval_modules s p (a :: rest) h =
  eval_modules s p rest
    (match lookup_slot s p a with
     | Some (Attr (VModule l)) => alter set_eval l h
     | _ => h
     end).
Proof. done. Qed.

Lemma eval_modules_lookup s p names h l :
  eval_modules s p names h !! l = h !! l
  ∨ eval_modules s p names h !! l = set_eval <$> h !! l.
Proof.
  revert h. induction names as [|a rest IH]; intros h; [by left|].
  rewrite eval_modules_cons.
  destruct (lookup_slot s p a) as [[[l0|o]|e]|]; try apply IH.
  destruct (IH (alter set_eval l0 h)) as [->| ->];
    destruct (decide (l0 = l)) as [->|Hne];
    rewrite ?lookup_alter_eq, ?lookup_alter_ne, ?set_eval_idemp by done; auto.
Qed.

Lemma eval_modules_evaluated s p names h a l :
  a ∈ names →
  lookup_slot s p a = Some (Attr (VModule l)) →
  eval_modules s p names h !! l = set_eval <$> h !! l.
Proof.
  revert h. induction names as [|b rest IH]; intros h Hin Hl; [by inversion Hin|].
  rewrite eval_modules_cons.
  apply elem_of_cons in Hin as [<-|Hin].
  - rewrite Hl.
    destruct (eval_modules_lookup s p rest (alter set_eval l h) l) as [->| ->];
      by rewrite lookup_alter_eq, ?set_eval_idemp.
  - destruct (lookup_slot s p b) as [[[l0|o]|e]|]; try by apply IH.
    rewrite (IH _ Hin Hl).
    destruct (decide (l0 = l)) as [->|Hne];
      by rewrite ?lookup_alter_eq, ?lookup_alter_ne, ?set_eval_idemp by done.
Qed.

Lemma sweep_without_text_encoder
    (ipex : loc → Dtype → gmap loc Module → gmap loc Module * (exn + loc))
    (p : ref) (names : list string) (s : State) (h : gmap loc Module) :
  getattr p "text_encoder" s = (s, inl AttributeError) →
  (∀ a cls, a ∈ names → getattr p a s ≠ (s, inl (OtherError cls))) →
  sweep ipex p names (mkState (pipes s) h) =
    (mkState (pipes s) (eval_modules s p names h), inr tt).
Proof.
  intros Hte. revert h. induction names as [|a rest IH]; intros h Hno; [done|].
  assert (∀ b h', (getattr p b (mkState (pipes s) h')).2 = (getattr p b s).2) as Hget.
  { intros b h'. by apply getattr_same_slot. }
  set (s0 := mkState (pipes s) h).
  assert (∀ b r, (getattr p b s).2 = r → getattr p b s0 = (s0, r)) as Hget0.
  { intros b r Hr. rewrite <- Hr, <- (Hget b h).
    rewrite (surjective_pairing (getattr p b s0)). f_equal. apply getattr_state. }
  rewrite sweep_cons, sweep_step_eq, eval_modules_cons.
  assert (∀ b, b ∈ rest → ∀ cls, getattr p b s ≠ (s, inl (OtherError cls))) as Hrest.
  { intros b Hb cls. apply Hno. by right. }
  destruct (getattr_cases p a s) as [[e H]|[[o H]|[l H]]].
  - assert (e = AttributeError) as ->.
    { destruct e as [|cls]; [done|]. exfalso. apply (Hno a cls); [by left|done]. }
    rewrite (optimize_attr_unreadable ipex p a s0 AttributeError); simpl.
    + assert (∀ l, lookup_slot s p a ≠ Some (Attr (VModule l))) as Hnm.
      { intros l Hl. apply getattr_module_slot in Hl. congruence. }
      destruct (lookup_slot s p a) as [[[l|?]|?]|]; try (apply IH; naive_solver).
      by destruct (Hnm l).
    + apply Hget0. by rewrite H.
  - rewrite (optimize_attr_not_module ipex p a s0 o); simpl.
    + assert (∀ l, lookup_slot s p a ≠ Some (Attr (VModule l))) as Hnm.
      { intros l Hl. apply getattr_module_slot in Hl. congruence. }
      destruct (lookup_slot s p a) as [[[l|?]|?]|]; try (apply IH; naive_solver).
      by destruct (Hnm l).
    + apply Hget0. by rewrite H.
  - assert (getattr p a s0 = (s0, inr (VModule l))) as H0.
    { apply Hget0. by rewrite H. }
    apply getattr_module_slot in H. rewrite H.
    assert ((getattr p "text_encoder" (after_eval s0 l)).2 = inl AttributeError) as Hte1.
    { unfold after_eval; simpl. by rewrite Hget, Hte. }
    destruct (optimize_attr_module_cases ipex _ _ _ _ H0)
      as [(e & He & ->)|[(te & e & Hg & _)|[(te & d & h' & e & Hg & _)
         |(te & d & h' & l' & Hg & _)]]];
      try (rewrite Hg in Hte1; discriminate Hte1).
    rewrite Hte1 in He. injection He as <-. simpl.
    apply IH. naive_solver.
Qed.

(** C7 (as the code has it).  On a pipeline whose [text_encoder] cannot be
    read, and none of whose listed attributes raises anything but
    [AttributeError] when read, [optimize_pipeline] optimizes nothing and
    rebinds nothing: it returns the same pipeline object, every pipeline
    object is as before, and no module's [optimized_for] or [dtype] has
    changed.  It is not without effect: [.eval()] has been called on the
    module of every listed module attribute, because it runs before
    [pipeline.text_encoder.dtype] is read; a module differs from before by
    that call at most. *)
Theorem without_text_encoder_modules_only_put_in_eval_mode
    (ipex : loc → Dtype → gmap loc Module → gmap loc Module * (exn + loc))
    (p : ref) (s : State) :
  getattr p "text_encoder" s = (s, inl AttributeError) →
  (∀ a cls, a ∈ listed s p → getattr p a s ≠ (s, inl (OtherError cls))) →
  let s' := mkState (pipes s) (eval_modules s p (listed s p) (mods s)) in
  optimize_pipeline ipex p s = (s', inr p)
  ∧ (∀ l, mods s' !! l ≫= optimized_for = mods s !! l ≫= optimized_for)
  ∧ (∀ l, mods s' !! l ≫= dtype = mods s !! l ≫= dtype)
  ∧ (∀ a l, a ∈ listed s p → getattr p a s = (s, inr (VModule l)) →
            mods s' !! l = set_eval <$> mods s !! l)
  ∧ (∀ l, mods s' !! l = mods s !! l ∨ mods s' !! l = set_eval <$> mods s !! l).
Proof.
  intros Hte Hno s'. subst s'. simpl.
  assert (∀ l, eval_modules s p (listed s p) (mods s) !! l = mods s !! l
               ∨ eval_modules s p (listed s p) (mods s) !! l = set_eval <$> mods s !! l)
    as Hl by (intros l; apply eval_modules_lookup).
  split; [|split; [|split; [|split]]].
  - rewrite optimize_pipeline_eq.
    pose proof (sweep_without_text_encoder ipex p _ s (mods s) Hte Hno) as E.
    destruct s as [P h]. cbn [pipes mods] in E. by rewrite E.
  - intros l. destruct (Hl l) as [->| ->]; [done|]. by destruct (mods s !! l).
  - intros l. destruct (Hl l) as [->| ->]; [done|]. by destruct (mods s !! l).
  - intros a l Hin Ha. apply eval_modules_evaluated with a; [done|].
    by apply getattr_module_slot.
  - exact Hl.
Qed.

(** *** Replacing a module attribute *)


Lemma optimize_attr_ipex_raises
    (ipex : loc → Dtype → gmap loc Module → gmap loc Module * (exn + loc))
    (p : ref) (a : string) (s : State) (l : loc) (te : Value) (d : Dtype)
    (h : gmap loc Module) (e : exn) :
  getattr p a s = (s, inr (VModule l)) →
  getattr p "text_encoder" (after_eval s l) = (after_eval s l, inr te) →
  get_dtype te (after_eval s l) = (after_eval s l, inr d) →
  ipex l d (mods (after_eval s l)) = (h, inl e) →
  optimize_attr ipex p a s = (mkState (pipes s) h, inl e).
Proof.
  intros Ha Hte Hd Hi. rewrite (optimize_attr_module _ _ _ _ _ Ha).
  unfold_monad. rewrite Hte, Hd. unfold ipex_optimize_inplace. by rewrite Hi.
Qed.



(** *** Exceptions that are not caught *)

Lemma run_from_first_failure (cells : list Call) (k0 : nat)
    (raises : nat → option exn) (k : nat) (e : exn) :
  k < length cells →
  raises (k0 + k) = Some e →
  (∀ j, j < k → raises (k0 + j) = None) →
  run_from k0 raises cells = (take (S k) cells, Raised e).
Proof.
  revert k0 k. induction cells as [|c rest IH]; intros k0 k Hk He Hbefore;
    simpl in *; [lia|].
  destruct k as [|k].
  - rewrite Nat.add_0_r in He. by rewrite He, take_0.
  - rewrite <- (Nat.add_0_r k0) at 1. rewrite (Hbefore 0) by lia.
    rewrite (IH (S k0) k); [done|lia| |].
    + by replace (S k0 + k) with (k0 + S k) by lia.
    + intros j Hj. replace (S k0 + j) with (k0 + S j) by lia.
      apply Hbefore. lia.
Qed.

(** C2 (as the code has it).  The repository's only exception handler is
    the [except AttributeError] of [optimize_pipeline].
    - At the top level of a notebook nothing is caught: the first call that
      raises ends the run with its exception, and no later call runs.
    - Inside [optimize_pipeline], an exception of any class other than
      [AttributeError] raised while an attribute is processed leaves
      [optimize_pipeline] as it is, in the state of the raise.
    - An exception raised by [ipex.optimize] is the exception the [try]
      body raises; whether it is caught depends on its class alone. *)
Theorem exceptions_other_than_attribute_error_propagate :
  (∀ (nb : Notebook) (model_dir_exists : bool) (raises : nat → option exn)
     (k : nat) (e : exn),
     k < length (script nb model_dir_exists) →
     raises k = Some e →
     (∀ j, j < k → raises j = None) →
     run raises (script nb model_dir_exists)
     = (take (S k) (script nb model_dir_exists), Raised e))
  ∧ (∀ (ipex : loc → Dtype → gmap loc Module → gmap loc Module * (exn + loc))
       (p : ref) (s : State) (pre : list string) (a : string)
       (post : list string) (s1 s2 : State) (cls : string),
     listed s p = pre ++ a :: post →
     sweep ipex p pre s = (s1, inr tt) →
     optimize_attr ipex p a s1 = (s2, inl (OtherError cls)) →
     optimize_pipeline ipex p s = (s2, inl (OtherError cls)))
  ∧ (∀ (ipex : loc → Dtype → gmap loc Module → gmap loc Module * (exn + loc))
       (p : ref) (a : string) (s1 : State) (l : loc) (te : Value)
       (d : Dtype) (h : gmap loc Module) (e : exn),
     getattr p a s1 = (s1, inr (VModule l)) →
     getattr p "text_encoder" (after_eval s1 l) = (after_eval s1 l, inr te) →
     get_dtype te (after_eval s1 l) = (after_eval s1 l, inr d) →
     ipex l d (mods (after_eval s1 l)) = (h, inl e) →
     optimize_attr ipex p a s1 = (mkState (pipes s1) h, inl e)).
Proof.
  split; [|split].
  - intros nb b raises k e Hk He Hbefore. unfold run.
    by apply run_from_first_failure.
  - intros ipex p s pre a post s1 s2 cls Hdir Hsweep Hbody.
    rewrite optimize_pipeline_eq, Hdir, sweep_app, Hsweep, sweep_cons.
    rewrite sweep_step_eq. by rewrite Hbody.
  - intros ipex p a s1 l te d h e. apply optimize_attr_ipex_raises.
Qed.

(** *** The statements on sample heaps *)




(** C7 on a pipeline without [text_encoder]. *)
Lemma without_text_encoder_modules_only_put_in_eval_mode_witness :
  (getattr 0 "text_encoder" no_text_encoder = (no_text_encoder, inl AttributeError)
   ∧ (∀ a cls, a ∈ listed no_text_encoder 0 →
        getattr 0 a no_text_encoder ≠ (no_text_encoder, inl (OtherError cls))))
  ∧ optimize_pipeline ipex_marking 0 no_text_encoder
    = (mkState (pipes no_text_encoder)
               (eval_modules no_text_encoder 0 (listed no_text_encoder 0)
                             (mods no_text_encoder)),
       inr 0%nat).
Proof.
  assert (getattr 0 "text_encoder" no_text_encoder
          = (no_text_encoder, inl AttributeError)) as H1 by reflexivity.
  assert (∀ a cls, a ∈ listed no_text_encoder 0 →
            getattr 0 a no_text_encoder ≠ (no_text_encoder, inl (OtherError cls)))
    as H2.
  { intros a cls Hin.
    change (listed no_text_encoder 0) with ["scheduler"; "unet"] in Hin.
    apply elem_of_cons in Hin as [->|Hin]; [by vm_compute|].
    apply list_elem_of_singleton in Hin as ->. by vm_compute. }
  split; [by split|].
  exact (proj1 (without_text_encoder_modules_only_put_in_eval_mode
                  ipex_marking 0 no_text_encoder H1 H2)).
Defined.

(** C7 as stated fails: without [text_encoder] the call is not a no-op.
    The denoiser was in training mode before and is in eval mode after. *)
Lemma without_text_encoder_not_a_noop :
  let out := optimize_pipeline ipex_marking 0 no_text_encoder in
  getattr 0 "text_encoder" no_text_encoder = (no_text_encoder, inl AttributeError)
  ∧ out.2 = inr 0%nat
  ∧ training <$> mods no_text_encoder !! 1%nat = Some true
  ∧ training <$> mods out.1 !! 1%nat = Some false
  ∧ out ≠ (no_text_encoder, inr 0%nat).
Proof.
  repeat split; try compute_done.
  intros H. apply (f_equal (λ o, training <$> mods o.1 !! 1%nat)) in H.
  vm_compute in H. discriminate H.
Qed.

(** C2 as stated fails: [ipex.optimize] raises [AttributeError] for every
    module, the [try] body raises it, and [optimize_pipeline] returns
    normally with every module attribute left as it was. *)
Lemma attribute_error_from_ipex_is_caught :
  let failing := ipex_raising AttributeError in
  let out := optimize_pipeline failing 0 loaded in
  (∀ l d h, (failing l d h).2 = inl AttributeError)
  ∧ get_dtype (VModule 2) (after_eval loaded 3) = (after_eval loaded 3, inr bfloat16)
  ∧ optimize_attr failing 0 "unet" loaded = (after_eval loaded 3, inl AttributeError)
  ∧ out.2 = inr 0%nat
  ∧ pipes out.1 = pipes loaded.
Proof.
  repeat split; compute_done.
Qed.

(** C2 on a missing checkpoint and on a failing [ipex.optimize]:
    [from_pretrained], the 13th call of the PyTorch notebook, raises
    [OSError] and ends the run; a [RuntimeError] out of [ipex.optimize]
    leaves [optimize_pipeline]. *)
Lemma exceptions_other_than_attribute_error_propagate_witness :
  let raises := λ k : nat, if decide (k = 12) then Some (OtherError "OSError") else None in
  let failing := ipex_raising (OtherError "RuntimeError") in
  (12 < length (script Simple_Pytorch_SD false)
   ∧ raises 12 = Some (OtherError "OSError")
   ∧ (∀ j, j < 12 → raises j = None)
   ∧ listed loaded 0 = [] ++ "controlnet" :: ["guidance_scale"; "scheduler"; "text_encoder"; "unet"; "vae"]
   ∧ sweep failing 0 [] loaded = (loaded, inr tt)
   ∧ optimize_attr failing 0 "controlnet" loaded
     = (after_eval loaded 1, inl (OtherError "RuntimeError")))
  ∧ (run raises (script Simple_Pytorch_SD false)
     = (take 13 (script Simple_Pytorch_SD false), Raised (OtherError "OSError"))
     ∧ optimize_pipeline failing 0 loaded
       = (after_eval loaded 1, inl (OtherError "RuntimeError"))).
Proof.
  intros raises failing.
  assert (12 < length (script Simple_Pytorch_SD false)) as H1 by (vm_compute; lia).
  assert (raises 12 = Some (OtherError "OSError")) as H2 by reflexivity.
  assert (∀ j, j < 12 → raises j = None) as H3.
  { intros j Hj. unfold raises. by rewrite decide_False by lia. }
  assert (listed loaded 0 = [] ++ "controlnet" ::
            ["guidance_scale"; "scheduler"; "text_encoder"; "unet"; "vae"]) as H4
    by reflexivity.
  assert (sweep failing 0 [] loaded = (loaded, inr tt)) as H5 by reflexivity.
  assert (optimize_attr failing 0 "controlnet" loaded
          = (after_eval loaded 1, inl (OtherError "RuntimeError"))) as H6
    by (vm_compute; reflexivity).
  split; [by repeat split|].
  destruct exceptions_other_than_attribute_error_propagate as (Htop & Hhelper & _).
  split.
  - exact (Htop Simple_Pytorch_SD false raises 12 (OtherError "OSError") H1 H2 H3).
  - exact (Hhelper failing 0 loaded [] "controlnet" _ loaded _ "RuntimeError" H4 H5 H6).
Defined.

(* ===================================================================== *)
(** * Part 6.  The Canny conditioning image                               *)
(* ===================================================================== *)

Lemma zip_exact_map {A B C D} (f : B → C → option D)
    (g1 : A → B) (g2 : A → C) (k : A → D) (xs : list A) :
  (∀ x, x ∈ xs → f (g1 x) (g2 x) = Some (k x)) →
  zip_exact f (map g1 xs) (map g2 xs) = Some (map k xs).
Proof.
  induction xs as [|x xs IH]; intros Hf; [done|]. simpl.
  rewrite Hf by (by left). simpl.
  rewrite IH; [done|]. intros y Hy. apply Hf. by right.
Qed.

(** Joining two channel-wise images of the same array along axis 2. *)
Lemma concatenate2_axis2_map (g1 g2 : Z → list Z) (a : arr2) :
  concatenate2_axis2 (map (map g1) a) (map (map g2) a)
  = Some (map (map (λ v, g1 v ++ g2 v)) a).
Proof.
  unfold concatenate2_axis2.
  apply (zip_exact_map _ (map g1) (map g2) (map (λ v, g1 v ++ g2 v))).
  intros row _. by apply zip_exact_map.
Qed.

Lemma pixel_map (f : Z → list Z) (a : arr2) (i j : nat) :
  pixel (map (map f) a) i j = f <$> edge_at a i j.
Proof.
  unfold pixel, edge_at. rewrite list_lookup_fmap.
  destruct (a !! i) as [row|]; simpl; [|done]. apply list_lookup_fmap.
Qed.

(** C9.  For every edge array that [cv2.Canny] can return, the conditioning
    image exists (the three arrays joined have the same shape), is an RGB
    image with as many rows as the edge array, and its pixel at every
    position is the edge value there three times: the three channels are
    equal.  Outside the array there is no pixel. *)
Theorem canny_image_three_equal_channels (edges : arr2) :
  ∃ img,
    canny_image edges = Some img
    ∧ mode img = "RGB"
    ∧ length (pixels img) = length edges
    ∧ ∀ i j, pixel (pixels img) i j = (λ v, [v; v; v]) <$> edge_at edges i j.
Proof.
  exists (mkImage "RGB" (map (map (λ v, [v; v; v])) edges)).
  split; [|split; [done|split; [apply length_map|intros; apply pixel_map]]].
  unfold canny_image, new_last_axis, np_concatenate_axis2. simpl.
  rewrite (concatenate2_axis2_map (λ v, [v]) (λ v, [v])). simpl.
  by rewrite (concatenate2_axis2_map (λ v, [v] ++ [v]) (λ v, [v])).
Qed.

(* ===================================================================== *)
(** * Part 7.  The notebooks                                              *)
(* ===================================================================== *)

(** ** Files written *)

(** C4 as stated fails: the OpenVINO notebook writes [notebook_utils.py]
    before it writes its image, and the PyTorch notebook writes no file
    (its [image.save] is commented out). *)
Lemma openvino_notebook_writes_a_python_file :
  files_written (script OpenVINO_Text_to_Image true)
    = ["notebook_utils.py"; "result.png"]
  ∧ is_png "notebook_utils.py" = false
  ∧ ¬ writes_only_one_png (script OpenVINO_Text_to_Image true)
  ∧ ¬ writes_only_one_png (script OpenVINO_Text_to_Image false)
  ∧ ¬ writes_only_one_png (script Simple_Pytorch_SD true).
Proof.
  split; [compute_done|]. split; [compute_done|].
  repeat split; intros [f [H _]]; vm_compute in H; discriminate H.
Qed.

(** C4 (as the code has it).  A run writes at most one PNG file into the
    working directory: [house.png] in the ControlNet notebook,
    [result.png] in the OpenVINO notebook, none in the PyTorch notebook.
    The OpenVINO notebook also writes [notebook_utils.py], and saves the
    exported model into [diffusion_pipeline] when that directory does not
    exist yet; no other notebook saves a model. *)
Theorem files_written_by_each_notebook (model_dir_exists : bool) :
  files_written (script Simple_Pytorch_SD model_dir_exists) = []
  ∧ files_written (script OpenVINO_Text_to_Image model_dir_exists)
    = ["notebook_utils.py"; "result.png"]
  ∧ files_written (script ControlNet_Generate model_dir_exists) = ["house.png"]
  ∧ omap saved_model_dir (script OpenVINO_Text_to_Image model_dir_exists)
    = (if model_dir_exists then [] else ["diffusion_pipeline"])
  ∧ omap saved_model_dir (script Simple_Pytorch_SD model_dir_exists) = []
  ∧ omap saved_model_dir (script ControlNet_Generate model_dir_exists) = []
  ∧ ∀ nb, (length (filter (λ f, is_png f = true)
                          (files_written (script nb model_dir_exists))) ≤ 1)%nat.
Proof.
  destruct model_dir_exists; repeat split; try compute_done;
    intros []; vm_compute; lia.
Qed.

(** ** The inference call *)

(** C5 as stated fails: the PyTorch notebook calls the pipeline with the
    prompt and nothing else. *)
Lemma pytorch_notebook_passes_only_the_prompt :
  inference_calls (script Simple_Pytorch_SD false)
    = [mkCall "pipe" [Str "A cat riding a surfboard on a big wave"] []]
  ∧ ¬ (∀ nb model_dir_exists c,
         c ∈ inference_calls (script nb model_dir_exists) →
         passes_prompt_steps_guidance_seed c = true).
Proof.
  assert (inference_calls (script Simple_Pytorch_SD false)
          = [mkCall "pipe" [Str "A cat riding a surfboard on a big wave"] []])
    as Hcalls by compute_done.
  split; [exact Hcalls|]. intros H.
  specialize (H Simple_Pytorch_SD false
                (mkCall "pipe" [Str "A cat riding a surfboard on a big wave"] [])).
  assert (passes_prompt_steps_guidance_seed
            (mkCall "pipe" [Str "A cat riding a surfboard on a big wave"] [])
          = false) as Hf by compute_done.
  rewrite H in Hf; [discriminate Hf|].
  rewrite Hcalls. by apply list_elem_of_singleton.
Qed.

(** C5 (as the code has it).  Every notebook calls its pipeline once, with
    the prompt as first argument and at most one further argument: none in
    the PyTorch notebook, the step count ([num_inference_steps], from the
    slider) in the OpenVINO notebook, the conditioning image in the
    ControlNet notebook.  No call passes a guidance scale or a seed; the
    OpenVINO notebook seeds numpy's global generator with
    [np.random.seed(seed.value)] right before the call. *)
Theorem inference_call_arguments (model_dir_exists : bool) :
  inference_calls (script Simple_Pytorch_SD model_dir_exists)
    = [mkCall "pipe" [Str "A cat riding a surfboard on a big wave"] []]
  ∧ inference_calls (script OpenVINO_Text_to_Image model_dir_exists)
    = [mkCall "ov_pipe" [Expr "text_prompt.value"]
         [("num_inference_steps", Expr "num_steps.value")]]
  ∧ inference_calls (script ControlNet_Generate model_dir_exists)
    = [mkCall "pipe" [Str "Vivid Watercolor"] [("image", Expr "canny_image")]]
  ∧ (∀ nb c, c ∈ inference_calls (script nb model_dir_exists) →
       passes_prompt c = true
       ∧ has_kwarg "guidance_scale" c = false
       ∧ has_kwarg "generator" c = false
       ∧ has_kwarg "seed" c = false
       ∧ (extra_arguments c ≤ 1)%nat
       ∧ (has_kwarg "num_inference_steps" c = true → nb = OpenVINO_Text_to_Image))
  ∧ (∃ before after,
       script OpenVINO_Text_to_Image model_dir_exists
       = before
         ++ [mkCall "np.random.seed" [Expr "seed.value"] [];
             mkCall "ov_pipe" [Expr "text_prompt.value"]
               [("num_inference_steps", Expr "num_steps.value")]]
         ++ after).
Proof.
  assert (inference_calls (script Simple_Pytorch_SD model_dir_exists)
          = [mkCall "pipe" [Str "A cat riding a surfboard on a big wave"] []]) as H1
    by (destruct model_dir_exists; compute_done).
  assert (inference_calls (script OpenVINO_Text_to_Image model_dir_exists)
          = [mkCall "ov_pipe" [Expr "text_prompt.value"]
               [("num_inference_steps", Expr "num_steps.value")]]) as H2
    by (destruct model_dir_exists; compute_done).
  assert (inference_calls (script ControlNet_Generate model_dir_exists)
          = [mkCall "pipe" [Str "Vivid Watercolor"] [("image", Expr "canny_image")]])
    as H3 by (destruct model_dir_exists; compute_done).
  split; [exact H1|]. split; [exact H2|]. split; [exact H3|]. split.
  - intros nb c Hc.
    destruct nb; rewrite ?H1, ?H2, ?H3 in Hc;
      apply list_elem_of_singleton in Hc as ->;
      repeat split; try compute_done; try (vm_compute; lia);
      intros Hk; vm_compute in Hk; discriminate Hk.
  - destruct model_dir_exists.
    + exists (take 32 (script OpenVINO_Text_to_Image true)),
             (drop 34 (script OpenVINO_Text_to_Image true)). compute_done.
    + exists (take 33 (script OpenVINO_Text_to_Image false)),
             (drop 35 (script OpenVINO_Text_to_Image false)). compute_done.
Qed.

(** ** Order of the steps *)




(* ===================================================================== *)
(** * Part 8.  Further properties of [optimize_pipeline]                  *)
(* ===================================================================== *)

Lemma get_dtype_state te s : (get_dtype te s).1 = s.
Proof.
  unfold get_dtype. destruct te as [l|o].
  - by destruct (mods s !! l ≫= dtype).
  - by destruct (obj_dtype o).
Qed.


Lemma after_eval_not_training s l :
  training <$> mods (after_eval s l) !! l ≠ Some true.
Proof.
  unfold after_eval; simpl. rewrite lookup_alter_eq.
  by destruct (mods s !! l).
Qed.

Lemma lookup_slot_same_pipes s s' p a :
  pipes s' = pipes s → lookup_slot s' p a = lookup_slot s p a.
Proof. intros H. unfold lookup_slot. by rewrite H. Qed.

Lemma getattr_same_pipes p a s s' :
  pipes s' = pipes s → (getattr p a s').2 = (getattr p a s).2.
Proof. intros H. by apply getattr_same_slot, lookup_slot_same_pipes. Qed.


(** *** [ipex.optimize] is applied to modules in eval mode only *)

Lemma optimize_attr_ext
    (ipex ipex' : loc → Dtype → gmap loc Module → gmap loc Module * (exn + loc))
    (p : ref) (a : string) (s : State) :
  (∀ l d h, training <$> h !! l ≠ Some true → ipex l d h = ipex' l d h) →
  optimize_attr ipex p a s = optimize_attr ipex' p a s.
Proof.
  intros Hagree.
  destruct (getattr_cases p a s) as [[e H]|[[o H]|[l H]]].
  - by rewrite !(optimize_attr_unreadable _ _ _ _ _ H).
  - by rewrite !(optimize_attr_not_module _ _ _ _ _ H).
  - rewrite !(optimize_attr_module _ _ _ _ _ H). unfold_monad.
    destruct (getattr p "text_encoder" (after_eval s l)) as [s1 [e|te]] eqn:Hte;
      [done|].
    apply getattr_inv in Hte as ->.
    pose proof (get_dtype_state te (after_eval s l)) as Hst.
    destruct (get_dtype te (after_eval s l)) as [s2 [e|d]]; [done|].
    simpl in Hst. subst s2. unfold ipex_optimize_inplace.
    rewrite (Hagree l d (mods (after_eval s l))); [done|].
    apply after_eval_not_training.
Qed.

Lemma sweep_ext
    (ipex ipex' : loc → Dtype → gmap loc Module → gmap loc Module * (exn + loc))
    (p : ref) (names : list string) (s : State) :
  (∀ l d h, training <$> h !! l ≠ Some true → ipex l d h = ipex' l d h) →
  sweep ipex p names s = sweep ipex' p names s.
Proof.
  intros Hagree. revert s. induction names as [|a rest IH]; intros s; [done|].
  rewrite !sweep_cons, !sweep_step_eq, (optimize_attr_ext ipex ipex' p a s Hagree).
  destruct (optimize_attr ipex' p a s) as [s1 [[|cls]|[]]]; simpl; auto.
Qed.

(** X1.  [optimize_pipeline] never hands [ipex.optimize] a module that is in
    training mode: two versions of [ipex.optimize] that agree on every
    module not in training mode give the same run, whatever they would do
    to a module in training mode. *)
Theorem ipex_optimize_sees_eval_mode_only
    (ipex ipex' : loc → Dtype → gmap loc Module → gmap loc Module * (exn + loc))
    (p : ref) (s : State) :
  (∀ l d h, training <$> h !! l ≠ Some true → ipex l d h = ipex' l d h) →
  optimize_pipeline ipex p s = optimize_pipeline ipex' p s.
Proof.
  intros Hagree. rewrite !optimize_pipeline_eq.
  by rewrite (sweep_ext ipex ipex' p _ s Hagree).
Qed.

(** *** An [ipex.optimize] that returns its argument *)

Lemma alter_set_slot_same (P : gmap ref Pipeline) (p : ref) (a : string)
    (v : Value) :
  (P !! p ≫= λ o, slots o !! a) = Some (Attr v) →
  alter (set_slot a v) p P = P.
Proof.
  intros H. apply map_eq. intros q.
  destruct (decide (q = p)) as [->|Hq]; [|by rewrite lookup_alter_ne].
  rewrite lookup_alter_eq. destruct (P !! p) as [[names sl]|]; [|done].
  simpl in *. unfold set_slot; simpl. by rewrite insert_id.
Qed.

Lemma optimize_attr_inplace_pipes
    (ipex : loc → Dtype → gmap loc Module → gmap loc Module * (exn + loc))
    (p : ref) (a : string) (s : State) :
  (∀ l d h h' l', ipex l d h = (h', inr l') → l' = l) →
  pipes (optimize_attr ipex p a s).1 = pipes s.
Proof.
  intros Hin.
  destruct (getattr_cases p a s) as [[e H]|[[o H]|[l H]]].
  - by rewrite (optimize_attr_unreadable _ _ _ _ _ H).
  - by rewrite (optimize_attr_not_module _ _ _ _ _ H).
  - destruct (optimize_attr_module_cases ipex _ _ _ _ H)
      as [(e & _ & ->)|[(te & e & _ & _ & ->)|[(te & d & h & e & _ & _ & _ & ->)
         |(te & d & h & l' & _ & _ & Hi & ->)]]]; simpl; try done.
    apply Hin in Hi as ->. apply alter_set_slot_same.
    by apply getattr_module_slot in H.
Qed.

Lemma sweep_inplace_pipes
    (ipex : loc → Dtype → gmap loc Module → gmap loc Module * (exn + loc))
    (p : ref) (names : list string) (s : State) :
  (∀ l d h h' l', ipex l d h = (h', inr l') → l' = l) →
  pipes (sweep ipex p names s).1 = pipes s.
Proof.
  intros Hin. revert s. induction names as [|a rest IH]; intros s; [done|].
  rewrite sweep_cons, sweep_step_eq.
  pose proof (optimize_attr_inplace_pipes ipex p a s Hin) as Hstep.
  destruct (optimize_attr ipex p a s) as [s1 [[|cls]|[]]]; simpl in *;
    try done; by rewrite IH.
Qed.

(** X2.  When [ipex.optimize] returns the module it was given (what
    [inplace=True] asks for), [optimize_pipeline] leaves every pipeline
    object exactly as it was: each [setattr] stores the object the
    attribute already held. *)
Theorem inplace_ipex_optimize_rebinds_nothing
    (ipex : loc → Dtype → gmap loc Module → gmap loc Module * (exn + loc))
    (p : ref) (s : State) :
  (∀ l d h h' l', ipex l d h = (h', inr l') → l' = l) →
  pipes (optimize_pipeline ipex p s).1 = pipes s.
Proof.
  intros Hin. rewrite optimize_pipeline_eq.
  pose proof (sweep_inplace_pipes ipex p (listed s p) s Hin) as H.
  by destruct (sweep ipex p (listed s p) s) as [s1 [e|[]]].
Qed.

(** *** A pipeline without module attributes *)

Lemma sweep_no_module
    (ipex : loc → Dtype → gmap loc Module → gmap loc Module * (exn + loc))
    (p : ref) (names : list string) (s : State) :
  (∀ a l, a ∈ names → getattr p a s ≠ (s, inr (VModule l))) →
  (∀ a cls, a ∈ names → getattr p a s ≠ (s, inl (OtherError cls))) →
  sweep ipex p names s = (s, inr tt).
Proof.
  induction names as [|a rest IH]; intros Hmod Hexn; [done|].
  rewrite sweep_cons, sweep_step_eq.
  destruct (getattr_cases p a s) as [[e H]|[[o H]|[l H]]].
  - rewrite (optimize_attr_unreadable _ _ _ _ _ H). simpl.
    destruct e as [|cls].
    + apply IH; intros; [apply Hmod|apply Hexn]; by right.
    + exfalso. apply (Hexn a cls); [by left|done].
  - rewrite (optimize_attr_not_module _ _ _ _ _ H). simpl.
    apply IH; intros; [apply Hmod|apply Hexn]; by right.
  - exfalso. apply (Hmod a l); [by left|done].
Qed.

(** X3.  On a pipeline none of whose listed attributes is an [nn.Module]
    (an empty listing included), and none of which raises anything but
    [AttributeError] when read, [optimize_pipeline] changes nothing at all,
    calls [ipex.optimize] on nothing and returns the pipeline. *)
Theorem no_module_attribute_nothing_changes
    (ipex : loc → Dtype → gmap loc Module → gmap loc Module * (exn + loc))
    (p : ref) (s : State) :
  (∀ a l, a ∈ listed s p → getattr p a s ≠ (s, inr (VModule l))) →
  (∀ a cls, a ∈ listed s p → getattr p a s ≠ (s, inl (OtherError cls))) →
  optimize_pipeline ipex p s = (s, inr p).
Proof.
  intros Hmod Hexn. rewrite optimize_pipeline_eq.
  by rewrite (sweep_no_module ipex p _ s Hmod Hexn).
Qed.

(** *** When [optimize_pipeline] returns *)





(** *** Calling [optimize_pipeline] again without [text_encoder] *)

Lemma eval_modules_pointwise s p names l :
  (∀ h, eval_modules s p names h !! l = h !! l)
  ∨ (∀ h, eval_modules s p names h !! l = set_eval <$> h !! l).
Proof.
  induction names as [|a rest IH]; [by left|].
  assert ((∀ h : gmap loc Module,
             match lookup_slot s p a with
             | Some (Attr (VModule l0)) => alter set_eval l0 h
             | _ => h
             end !! l = h !! l)
          ∨ (∀ h : gmap loc Module,
               match lookup_slot s p a with
               | Some (Attr (VModule l0)) => alter set_eval l0 h
               | _ => h
               end !! l = set_eval <$> h !! l)) as Hstep.
  { destruct (lookup_slot s p a) as [[[l0|o]|e]|]; try by left.
    destruct (decide (l0 = l)) as [->|Hne].
    - right. intros h. by rewrite lookup_alter_eq.
    - left. intros h. by rewrite lookup_alter_ne. }
  destruct IH as [IH|IH], Hstep as [Hs|Hs].
  - left. intros h. by rewrite eval_modules_cons, IH, Hs.
  - right. intros h. by rewrite eval_modules_cons, IH, Hs.
  - right. intros h. by rewrite eval_modules_cons, IH, Hs.
  - right. intros h. by rewrite eval_modules_cons, IH, Hs, set_eval_idemp.
Qed.

Lemma eval_modules_idemp s p names h :
  eval_modules s p names (eval_modules s p names h) = eval_modules s p names h.
Proof.
  apply map_eq. intros l.
  destruct (eval_modules_pointwise s p names l) as [E|E].
  - by rewrite E.
  - by rewrite !E, set_eval_idemp.
Qed.

(** X5.  Without a readable [text_encoder], a second call of
    [optimize_pipeline] changes nothing: the first call has put the modules
    in eval mode, and that is all such a call does. *)
Theorem without_text_encoder_second_call_changes_nothing
    (ipex : loc → Dtype → gmap loc Module → gmap loc Module * (exn + loc))
    (p : ref) (s : State) :
  getattr p "text_encoder" s = (s, inl AttributeError) →
  (∀ a cls, a ∈ listed s p → getattr p a s ≠ (s, inl (OtherError cls))) →
  let s1 := (optimize_pipeline ipex p s).1 in
  optimize_pipeline ipex p s1 = (s1, inr p).
Proof.
  intros Hte Hno s1. subst s1.
  pose proof (sweep_without_text_encoder ipex p (listed s p) s (mods s) Hte Hno) as E1.
  pose proof (sweep_without_text_encoder ipex p (listed s p) s
                (eval_modules s p (listed s p) (mods s)) Hte Hno) as E2.
  rewrite eval_modules_idemp in E2.
  rewrite (optimize_pipeline_eq ipex p s).
  destruct s as [P h]. cbn [pipes mods] in *. rewrite E1. simpl.
  rewrite optimize_pipeline_eq.
  change (listed (mkState P (eval_modules (mkState P h) p (listed (mkState P h) p) h)) p)
    with (listed (mkState P h) p).
  by rewrite E2.
Qed.

(** *** Modules the pipeline does not hold *)

Lemma optimize_attr_local_mods
    (ipex : loc → Dtype → gmap loc Module → gmap loc Module * (exn + loc))
    (p : ref) (a : string) (s : State) (l0 : loc) :
  (∀ l d h, l ≠ l0 → (ipex l d h).1 !! l0 = h !! l0) →
  lookup_slot s p a ≠ Some (Attr (VModule l0)) →
  mods (optimize_attr ipex p a s).1 !! l0 = mods s !! l0.
Proof.
  intros Hlocal Hnot.
  destruct (getattr_cases p a s) as [[e H]|[[o H]|[l H]]].
  - by rewrite (optimize_attr_unreadable _ _ _ _ _ H).
  - by rewrite (optimize_attr_not_module _ _ _ _ _ H).
  - assert (l ≠ l0) as Hne.
    { intros ->. by apply Hnot, getattr_module_slot. }
    assert (mods (after_eval s l) !! l0 = mods s !! l0) as Hev.
    { unfold after_eval; simpl. by rewrite lookup_alter_ne. }
    destruct (optimize_attr_module_cases ipex _ _ _ _ H)
      as [(e & _ & ->)|[(te & e & _ & _ & ->)|[(te & d & h & e & _ & _ & Hi & ->)
         |(te & d & h & l' & _ & _ & Hi & ->)]]]; simpl; try done.
    + rewrite <- Hev, <- (Hlocal l d (mods (after_eval s l)) Hne). by rewrite Hi.
    + rewrite <- Hev, <- (Hlocal l d (mods (after_eval s l)) Hne). by rewrite Hi.
Qed.

Lemma sweep_local_mods
    (ipex : loc → Dtype → gmap loc Module → gmap loc Module * (exn + loc))
    (p : ref) (names : list string) (s : State) (l0 : loc) :
  (∀ l d h h' l', ipex l d h = (h', inr l') → l' = l) →
  (∀ l d h, l ≠ l0 → (ipex l d h).1 !! l0 = h !! l0) →
  (∀ a, a ∈ names → lookup_slot s p a ≠ Some (Attr (VModule l0))) →
  mods (sweep ipex p names s).1 !! l0 = mods s !! l0.
Proof.
  intros Hin Hlocal. revert s.
  induction names as [|a rest IH]; intros s Hnot; [done|].
  rewrite sweep_cons, sweep_step_eq.
  pose proof (optimize_attr_inplace_pipes ipex p a s Hin) as Hpipes.
  pose proof (optimize_attr_local_mods ipex p a s l0 Hlocal
                (Hnot a ltac:(by left))) as Hmods.
  assert (∀ b, b ∈ rest →
               lookup_slot (optimize_attr ipex p a s).1 p b
               ≠ Some (Attr (VModule l0))) as Hrest.
  { intros b Hb. rewrite (lookup_slot_same_pipes s _ p b Hpipes).
    apply Hnot. by right. }
  destruct (optimize_attr ipex p a s) as [s1 [[|cls]|[]]]; simpl in *;
    try done; by rewrite IH.
Qed.

(** X6.  When [ipex.optimize] returns the module it was given and changes
    no module but that one, [optimize_pipeline] leaves alone every module
    that no listed attribute of the pipeline holds. *)
Theorem modules_outside_the_pipeline_untouched
    (ipex : loc → Dtype → gmap loc Module → gmap loc Module * (exn + loc))
    (p : ref) (s : State) (l0 : loc) :
  (∀ l d h h' l', ipex l d h = (h', inr l') → l' = l) →
  (∀ l d h, l ≠ l0 → (ipex l d h).1 !! l0 = h !! l0) →
  (∀ a, a ∈ listed s p → getattr p a s ≠ (s, inr (VModule l0))) →
  mods (optimize_pipeline ipex p s).1 !! l0 = mods s !! l0.
Proof.
  intros Hin Hlocal Hnot. rewrite optimize_pipeline_eq.
  assert (∀ a, a ∈ listed s p → lookup_slot s p a ≠ Some (Attr (VModule l0))) as Hn.
  { intros a Ha Hs. by apply (Hnot a Ha), getattr_module_slot. }
  pose proof (sweep_local_mods ipex p (listed s p) s l0 Hin Hlocal Hn) as H.
  by destruct (sweep ipex p (listed s p) s) as [s1 [e|[]]].
Qed.

(** *** The further properties on sample heaps *)

Lemma ipex_marking_inplace l d h h' l' :
  ipex_marking l d h = (h', inr l') → l' = l.
Proof. unfold ipex_marking. by intros [= _ ->]. Qed.


Lemma ipex_optimize_sees_eval_mode_only_witness :
  (∀ l d h, training <$> h !! l ≠ Some true →
            ipex_marking l d h = ipex_refusing_training l d h)
  ∧ optimize_pipeline ipex_marking 0 loaded
    = optimize_pipeline ipex_refusing_training 0 loaded.
Proof.
  assert (∀ l d h, training <$> h !! l ≠ Some true →
                   ipex_marking l d h = ipex_refusing_training l d h) as H.
  { intros l d h Hne. unfold ipex_refusing_training.
    by destruct (training <$> h !! l) as [[|]|]. }
  split; [exact H|].
  exact (ipex_optimize_sees_eval_mode_only ipex_marking ipex_refusing_training
           0 loaded H).
Defined.

Lemma inplace_ipex_optimize_rebinds_nothing_witness :
  (∀ l d h h' l', ipex_marking l d h = (h', inr l') → l' = l)
  ∧ pipes (optimize_pipeline ipex_marking 0 loaded).1 = pipes loaded.
Proof.
  split; [exact ipex_marking_inplace|].
  exact (inplace_ipex_optimize_rebinds_nothing ipex_marking 0 loaded
           ipex_marking_inplace).
Defined.

Lemma no_module_attribute_nothing_changes_witness :
  ((∀ a l, a ∈ listed no_modules 0 →
           getattr 0 a no_modules ≠ (no_modules, inr (VModule l)))
   ∧ (∀ a cls, a ∈ listed no_modules 0 →
               getattr 0 a no_modules ≠ (no_modules, inl (OtherError cls))))
  ∧ optimize_pipeline ipex_marking 0 no_modules = (no_modules, inr 0%nat).
Proof.
  assert (∀ a l, a ∈ listed no_modules 0 →
                 getattr 0 a no_modules ≠ (no_modules, inr (VModule l))) as H1.
  { intros a l Hin.
    change (listed no_modules 0) with ["guidance_scale"; "scheduler"] in Hin.
    decompose_list_elem_of; subst; by vm_compute. }
  assert (∀ a cls, a ∈ listed no_modules 0 →
                   getattr 0 a no_modules ≠ (no_modules, inl (OtherError cls))) as H2.
  { intros a cls Hin.
    change (listed no_modules 0) with ["guidance_scale"; "scheduler"] in Hin.
    decompose_list_elem_of; subst; by vm_compute. }
  split; [by split|].
  exact (no_module_attribute_nothing_changes ipex_marking 0 no_modules H1 H2).
Defined.


Lemma without_text_encoder_second_call_changes_nothing_witness :
  (getattr 0 "text_encoder" no_text_encoder = (no_text_encoder, inl AttributeError)
   ∧ (∀ a cls, a ∈ listed no_text_encoder 0 →
        getattr 0 a no_text_encoder ≠ (no_text_encoder, inl (OtherError cls))))
  ∧ optimize_pipeline ipex_marking 0
      (optimize_pipeline ipex_marking 0 no_text_encoder).1
    = ((optimize_pipeline ipex_marking 0 no_text_encoder).1, inr 0%nat).
Proof.
  assert (getattr 0 "text_encoder" no_text_encoder
          = (no_text_encoder, inl AttributeError)) as H1 by reflexivity.
  assert (∀ a cls, a ∈ listed no_text_encoder 0 →
            getattr 0 a no_text_encoder ≠ (no_text_encoder, inl (OtherError cls)))
    as H2.
  { intros a cls Hin.
    change (listed no_text_encoder 0) with ["scheduler"; "unet"] in Hin.
    decompose_list_elem_of; subst; by vm_compute. }
  split; [by split|].
  exact (without_text_encoder_second_call_changes_nothing ipex_marking 0
           no_text_encoder H1 H2).
Defined.

Lemma modules_outside_the_pipeline_untouched_witness :
  ((∀ l d h h' l', ipex_marking l d h = (h', inr l') → l' = l)
   ∧ (∀ l d h, l ≠ 5%nat → (ipex_marking l d h).1 !! 5%nat = h !! 5%nat)
   ∧ (∀ a, a ∈ listed loaded_with_spare 0 →
           getattr 0 a loaded_with_spare ≠ (loaded_with_spare, inr (VModule 5))))
  ∧ mods (optimize_pipeline ipex_marking 0 loaded_with_spare).1 !! 5%nat
    = mods loaded_with_spare !! 5%nat.
Proof.
  assert (∀ l d h, l ≠ 5%nat → (ipex_marking l d h).1 !! 5%nat = h !! 5%nat) as H2.
  { intros l d h Hne. unfold ipex_marking; simpl. by rewrite lookup_alter_ne. }
  assert (∀ a, a ∈ listed loaded_with_spare 0 →
               getattr 0 a loaded_with_spare
               ≠ (loaded_with_spare, inr (VModule 5))) as H3.
  { intros a Hin.
    change (listed loaded_with_spare 0)
      with ["controlnet"; "guidance_scale"; "scheduler"; "text_encoder";
            "unet"; "vae"] in Hin.
    decompose_list_elem_of; subst; by vm_compute. }
  split; [split; [exact ipex_marking_inplace|by split]|].
  exact (modules_outside_the_pipeline_untouched ipex_marking 0 loaded_with_spare
           5 ipex_marking_inplace H2 H3).
Defined.

(* ===================================================================== *)
(** * Part 9.  Further properties of the notebooks' cells                 *)
(* ===================================================================== *)

(** ** The path set-up cell *)

(** X7.  The entry the set-up cell appends to [sys.path] never depends on
    what [expanduser] does with a tilde: the path starts with a slash and
    is returned as it is, whatever [USER] holds.  When [USER] is not set
    the cell does not fail: the entry is [/home/None/.local/bin]. *)
Theorem user_bin_path_is_not_expanded
    (expand_tilde : string → string) (environ : gmap string string) :
  user_bin_path expand_tilde environ
  = "/home/" +:+ format_username (environ !! "USER") +:+ "/.local/bin"
  ∧ (environ !! "USER" = None →
     path_setup expand_tilde environ [] = ["/home/None/.local/bin"]).
Proof.
  split; [done|]. intros H. unfold path_setup, user_bin_path. by rewrite H.
Qed.

Lemma user_bin_path_is_not_expanded_witness :
  (∅ : gmap string string) !! "USER" = None
  ∧ path_setup (λ _, "/root") ∅ [] = ["/home/None/.local/bin"].
Proof.
  assert ((∅ : gmap string string) !! "USER" = None) as H by done.
  split; [exact H|].
  exact (proj2 (user_bin_path_is_not_expanded (λ _, "/root") ∅) H).
Defined.

(** X8.  The set-up cell is not idempotent: run [n] times, it leaves the
    entries [sys.path] had, in their order, followed by [n] copies of the
    user's bin directory. *)
Theorem path_setup_rerun
    (expand_tilde : string → string) (environ : gmap string string)
    (sys_path : list string) (n : nat) :
  Nat.iter n (path_setup expand_tilde environ) sys_path
  = sys_path ++ replicate n (user_bin_path expand_tilde environ).
Proof.
  induction n as [|n IH]; simpl.
  - by rewrite app_nil_r.
  - rewrite IH. unfold path_setup at 1.
    rewrite <- app_assoc. f_equal.
    change (user_bin_path expand_tilde environ
            :: replicate n (user_bin_path expand_tilde environ))
      with (replicate (S n) (user_bin_path expand_tilde environ)).
    by rewrite replicate_S_end.
Qed.

(** ** The display cell *)

Lemma str_split_nonempty sep s : str_split sep s ≠ [].
Proof.
  destruct s as [|c rest]; simpl; [done|].
  destruct (Ascii.eqb c sep); [done|]. by destruct (str_split sep rest).
Qed.

Lemma display_text_replace prompt :
  display_text prompt = replace_char "." newline_tab prompt.
Proof.
  unfold display_text. induction prompt as [|c rest IH]; [done|].
  simpl. destruct (Ascii.eqb c ".") eqn:E.
  - pose proof (str_split_nonempty "." rest) as Hne.
    destruct (str_split "." rest) as [|y l]; [done|].
    rewrite <- IH. done.
  - pose proof (str_split_nonempty "." rest) as Hne.
    destruct (str_split "." rest) as [|y l]; [done|].
    rewrite <- IH. by destruct l.
Qed.

Lemma replace_char_absent c by_ s :
  count_char c s = 0 → replace_char c by_ s = s.
Proof.
  induction s as [|c' rest IH]; [done|]. simpl.
  destruct (Ascii.eqb c' c); [done|]. intros H. by rewrite IH.
Qed.

(** X9.  The text the display cell prints is the prompt with every full
    stop replaced by a newline and a tab; a prompt without a full stop (the
    empty prompt included) is printed as it is. *)
Theorem display_text_replaces_full_stops (prompt : string) :
  display_text prompt = replace_char "." newline_tab prompt
  ∧ (count_char "." prompt = 0 → display_text prompt = prompt).
Proof.
  split; [apply display_text_replace|].
  intros H. rewrite display_text_replace. by apply replace_char_absent.
Qed.

Lemma display_text_replaces_full_stops_witness :
  count_char "." "a watercolor sketch of a cat surfing" = 0
  ∧ display_text "a watercolor sketch of a cat surfing"
    = "a watercolor sketch of a cat surfing".
Proof.
  assert (count_char "." "a watercolor sketch of a cat surfing" = 0) as H
    by reflexivity.
  split; [exact H|].
  exact (proj2 (display_text_replaces_full_stops
                  "a watercolor sketch of a cat surfing") H).
Defined.

Lemma count_char_app c a b :
  count_char c (a +:+ b) = count_char c a + count_char c b.
Proof.
  induction a as [|c' a IH]; [done|]. simpl. rewrite IH. lia.
Qed.

Lemma string_length_app a b :
  String.length (a +:+ b) = String.length a + String.length b.
Proof. induction a as [|c' a IH]; [done|]. simpl. by rewrite IH. Qed.

(** X10.  No full stop is left in the printed text; every full stop of the
    prompt has become two characters, so the text is longer than the prompt
    by the number of full stops, and has that many more newlines. *)
Theorem display_text_counts (prompt : string) :
  count_char "." (display_text prompt) = 0
  ∧ String.length (display_text prompt)
    = String.length prompt + count_char "." prompt
  ∧ count_char (ascii_of_nat 10) (display_text prompt)
    = count_char (ascii_of_nat 10) prompt + count_char "." prompt.
Proof.
  rewrite display_text_replace.
  induction prompt as [|c rest (IH1 & IH2 & IH3)]; [done|].
  simpl. destruct (Ascii.eqb c ".") eqn:E.
  - rewrite count_char_app, string_length_app, count_char_app, IH1, IH2, IH3.
    apply Ascii.eqb_eq in E as ->. simpl. repeat split; lia.
  - simpl. rewrite E, IH1, IH2, IH3. repeat split; lia.
Qed.

(** ** Runs that fail, and runs that follow a run *)

Lemma run_from_shape (cells : list Call) (k0 : nat) (raises : nat → option exn) :
  match run_from k0 raises cells with
  | (executed, Finished) => executed = cells
  | (executed, Raised _) =>
      ∃ n, n < length cells ∧ executed = take (S n) cells
  end.
Proof.
  revert k0. induction cells as [|c rest IH]; intros k0; simpl; [done|].
  destruct (raises k0) as [e|].
  - exists 0. split; [lia|]. by rewrite take_0.
  - specialize (IH (S k0)).
    destruct (run_from (S k0) raises rest) as [executed [|e]].
    + by rewrite IH.
    + destruct IH as (n & Hn & ->). exists (S n). split; [lia|done].
Qed.

Lemma completed_is_prefix (raises : nat → option exn) (cells : list Call) :
  ∃ n, (n ≤ length cells)%nat ∧ completed raises cells = take n cells.
Proof.
  unfold completed, run.
  pose proof (run_from_shape cells 0 raises) as H.
  destruct (run_from 0 raises cells) as [executed [|e]].
  - exists (length cells). split; [done|]. by rewrite H, take_ge.
  - destruct H as (n & Hn & ->). exists n. split; [lia|].
    by apply removelast_firstn.
Qed.

(** X11.  However a run of a notebook fails, an image file has been written
    only if the inference call has returned: among the calls that
    completed, a call that writes a PNG file is there only together with
    the call of the pipeline. *)
Theorem png_written_only_after_inference
    (nb : Notebook) (model_dir_exists : bool) (raises : nat → option exn) :
  existsb writes_png (completed raises (script nb model_dir_exists)) = true →
  existsb is_inference (completed raises (script nb model_dir_exists)) = true.
Proof.
  destruct (completed_is_prefix raises (script nb model_dir_exists))
    as (n & Hn & ->).
  assert (forallb
            (λ n, implb (existsb writes_png (take n (script nb model_dir_exists)))
                        (existsb is_inference (take n (script nb model_dir_exists))))
            (seq 0 (S (length (script nb model_dir_exists)))) = true) as Hall
    by (destruct nb, model_dir_exists; vm_compute; reflexivity).
  rewrite forallb_forall in Hall. specialize (Hall n).
  intros Hpng. rewrite Hpng in Hall. apply Hall, in_seq. lia.
Qed.

Lemma png_written_only_after_inference_witness :
  existsb writes_png (completed (λ _, None) (script ControlNet_Generate false)) = true
  ∧ existsb is_inference (completed (λ _, None) (script ControlNet_Generate false))
    = true.
Proof.
  assert (existsb writes_png
            (completed (λ _, None) (script ControlNet_Generate false)) = true) as H
    by (vm_compute; reflexivity).
  split; [exact H|].
  exact (png_written_only_after_inference ControlNet_Generate false (λ _, None) H).
Defined.

Lemma union_absorb (X A B : gset string) : A ⊆ X → B ⊆ X → X ∪ A ∪ B = X.
Proof.
  intros HA HB. rewrite <- (assoc_L (∪)), (comm_L (∪)).
  apply subseteq_union_1_L. by apply union_least.
Qed.

(** X12.  After a completed run of the OpenVINO notebook the directory
    [diffusion_pipeline] exists, so the next run loads the saved model from
    it instead of exporting [prompthero/openjourney], saves nothing, and
    adds no entry to the working directory. *)
Theorem openvino_second_run_loads_saved_model (fs : gset string) :
  let fs1 := fs_after fs (run_in fs OpenVINO_Text_to_Image) in
  "diffusion_pipeline" ∈ fs1
  ∧ run_in fs1 OpenVINO_Text_to_Image = OpenVINO_Text_to_Image_cells true
  ∧ omap saved_model_dir (run_in fs1 OpenVINO_Text_to_Image) = []
  ∧ fs_after fs1 (run_in fs1 OpenVINO_Text_to_Image) = fs1.
Proof.
  intros fs1.
  assert (∀ b, files_written (OpenVINO_Text_to_Image_cells b)
               = ["notebook_utils.py"; "result.png"]) as Hw
    by (intros []; compute_done).
  assert (omap saved_model_dir (OpenVINO_Text_to_Image_cells true) = []) as St
    by compute_done.
  assert (omap saved_model_dir (OpenVINO_Text_to_Image_cells false)
          = ["diffusion_pipeline"]) as Sf by compute_done.
  assert ("diffusion_pipeline" ∈ fs1) as Hin.
  { unfold fs1, fs_after, run_in, script. case_bool_decide as Hd.
    - do 2 (apply elem_of_union; left). exact Hd.
    - rewrite Sf. apply elem_of_union; right.
      apply elem_of_list_to_set, list_elem_of_singleton. done. }
  assert (run_in fs1 OpenVINO_Text_to_Image = OpenVINO_Text_to_Image_cells true) as Hrun.
  { unfold run_in, script. by rewrite bool_decide_eq_true_2. }
  split; [exact Hin|]. split; [exact Hrun|]. rewrite Hrun. split; [exact St|].
  unfold fs_after at 1. rewrite Hw, St. apply union_absorb.
  - unfold fs1, fs_after, run_in, script. rewrite Hw.
    apply union_subseteq_l', union_subseteq_r.
  - apply empty_subseteq.
Qed.

(** ** The conditioning image, read back *)

Lemma canny_image_eq (edges : arr2) :
  canny_image edges = Some (mkImage "RGB" (map (map (λ v, [v; v; v])) edges)).
Proof.
  unfold canny_image, new_last_axis, np_concatenate_axis2. simpl.
  rewrite (concatenate2_axis2_map (λ v, [v]) (λ v, [v])). simpl.
  by rewrite (concatenate2_axis2_map (λ v, [v] ++ [v]) (λ v, [v])).
Qed.

(** X13.  Nothing of the edge map is lost in the conditioning image: each
    of its three channels, read back, is the edge array, and there is no
    fourth channel unless the image has no pixel. *)
Theorem canny_image_channels_give_back_edges (edges : arr2) :
  ∃ img,
    canny_image edges = Some img
    ∧ channel 0 (pixels img) = Some edges
    ∧ channel 1 (pixels img) = Some edges
    ∧ channel 2 (pixels img) = Some edges
    ∧ (∀ i j, is_Some (edge_at edges i j) → channel 3 (pixels img) = None).
Proof.
  eexists. split; [apply canny_image_eq|]. simpl. unfold channel.
  assert (∀ k, k < 3 →
            mapM (mapM (λ px : list Z, px !! k))
                 (map (map (λ v : Z, [v; v; v])) edges) = Some edges) as Hk.
  { intros k Hk. apply (mapM_fmap_Some (mapM (λ px : list Z, px !! k))).
    intros row. apply (mapM_fmap_Some (λ px : list Z, px !! k)).
    intros v. by destruct k as [|[|[|k]]]; [..|lia]. }
  split; [apply Hk; lia|]. split; [apply Hk; lia|]. split; [apply Hk; lia|].
  intros i j [v Hv]. unfold edge_at in Hv.
  destruct (edges !! i) as [row|] eqn:Hrow; [|done]. simpl in Hv.
  destruct (mapM (mapM (λ px : list Z, px !! 3))
              (map (map (λ v : Z, [v; v; v])) edges)) as [a|] eqn:Hm; [|done].
  exfalso. apply mapM_Some_1 in Hm.
  assert (map (map (λ v : Z, [v; v; v])) edges !! i
          = Some (map (λ v : Z, [v; v; v]) row)) as Hi
    by (by rewrite list_lookup_fmap, Hrow).
  destruct (Forall2_lookup_l _ _ _ _ _ Hm Hi) as (r' & _ & Hr).
  apply mapM_Some_1 in Hr.
  assert (map (λ v : Z, [v; v; v]) row !! j = Some [v; v; v]) as Hj
    by (by rewrite list_lookup_fmap, Hv).
  destruct (Forall2_lookup_l _ _ _ _ _ Hr Hj) as (x & _ & Hx).
  discriminate Hx.
Qed.
